(** * mitre-mapping: classification of shell commands and technique lookup

    A shallow embedding of [map_command_to_mitre] and
    [analyze_bash_history] of [mitre-mapping.py], with the properties of
    the command classifier, of the technique resolver and of the history
    analyzer that the specification states.

    Conventions of the model.
    - A Python [str] is a [string]; a character stands for the code point
      of the same number, so the model covers text whose code points are
      below 256.  The character classes of [str.strip] and of the [re]
      module ([\s], [\w], [.]) are written out for that range.
    - The reference dataset is typed: [mitre_data['objects']] is a list of
      records with the four keys the program reads, each of them optional.
    - The dataset records are mutable objects shared between the dataset
      and the results.  The list of records is the store, threaded through
      a state-and-exception monad; a result refers to a dataset record by
      its index, so that aliasing is kept. *)

From Stdlib Require Import String Ascii NArith Bool List Lia.
From stdpp Require Import list.
Import ListNotations.

Local Open Scope string_scope.
Local Open Scope list_scope.

(** ** Characters *)

Module Char.

Definition newline : ascii := "010"%char.
Definition semicolon : ascii := ";"%char.

Definition between (lo hi : N) (c : ascii) : bool :=
  let n := N_of_ascii c in (lo <=? n)%N && (n <=? hi)%N.

(** [str.isspace], which is also the class [\s] of [re] on [str]
    patterns: TAB..CR, FS..US, space, NEL and NBSP. *)
Definition isspace (c : ascii) : bool :=
  between 9 13 c || between 28 32 c || between 133 133 c
  || between 160 160 c.

(** [str.isalnum] on the code points below 256. *)
Definition isalnum (c : ascii) : bool :=
  between 48 57 c || between 65 90 c || between 97 122 c
  || between 170 170 c || between 178 179 c || between 181 181 c
  || between 185 186 c || between 188 190 c || between 192 214 c
  || between 216 246 c || between 248 255 c.

(** The class [\w] of [re]: alphanumeric or underscore. *)
Definition isword (c : ascii) : bool :=
  isalnum c || Ascii.eqb c "_"%char.

End Char.

(** ** The string methods the program calls *)

Module Str.

Definition is_empty (s : string) : bool :=
  match s with EmptyString => true | String _ _ => false end.

(** Every character of [s] is whitespace. *)
Fixpoint allspace (s : string) : bool :=
  match s with
  | EmptyString => true
  | String c s' => Char.isspace c && allspace s'
  end.

Fixpoint lstrip (s : string) : string :=
  match s with
  | EmptyString => EmptyString
  | String c s' => if Char.isspace c then lstrip s' else s
  end.

Fixpoint rstrip (s : string) : string :=
  match s with
  | EmptyString => EmptyString
  | String c s' =>
      let r := rstrip s' in
      if Char.isspace c && is_empty r then EmptyString else String c r
  end.

(** [s.strip()] *)
Definition strip (s : string) : string := rstrip (lstrip s).

(** [s.startswith(p)] *)
Fixpoint startswith (p s : string) : bool :=
  match p, s with
  | EmptyString, _ => true
  | String a p', String b s' => Ascii.eqb a b && startswith p' s'
  | String _ _, EmptyString => false
  end.

(** [sub in s] on strings: [sub] occurs in [s] as a substring. *)
Fixpoint contains (sub s : string) : bool :=
  startswith sub s
  || match s with
     | EmptyString => false
     | String _ s' => contains sub s'
     end.

(** [s.split(sep)] for a one-character separator: never empty. *)
Fixpoint split (sep : ascii) (s : string) : list string :=
  match s with
  | EmptyString => [EmptyString]
  | String c s' =>
      if Ascii.eqb c sep then EmptyString :: split sep s'
      else match split sep s' with
           | [] => [String c EmptyString]
           | w :: ws => String c w :: ws
           end
  end.

(** [file.readlines()] on the text of the file: the lines keep their
    terminating newline, the last line may have none. *)
Fixpoint readlines (text : string) : list string :=
  match text with
  | EmptyString => []
  | String c text' =>
      if Ascii.eqb c Char.newline
      then String c EmptyString :: readlines text'
      else match readlines text' with
           | [] => [String c EmptyString]
           | l :: ls => String c l :: ls
           end
  end.

End Str.

(** ** Regular expressions

    The patterns of the program use anchors, the word boundary, literal
    text, the whitespace class and the dot, repetition of a class,
    grouping, alternation and the optional group.  [re.search] is only
    used as a truth value, so a pattern is modelled by the set of its
    matches, which the matcher below explores. *)

Module Re.

Inductive cclass : Type :=
| Space            (* backslash s *)
| Dot.             (* the dot: any character but the newline *)

Definition in_class (cl : cclass) (c : ascii) : bool :=
  match cl with
  | Space => Char.isspace c
  | Dot => negb (Ascii.eqb c Char.newline)
  end.

Inductive regex : Type :=
| Eps                         (* the empty pattern *)
| Bol                         (* caret *)
| Eol                         (* dollar *)
| WordB                       (* backslash b *)
| Lit (w : string)            (* literal text *)
| One (cl : cclass)           (* one character of a class *)
| Star (cl : cclass)          (* a class, starred *)
| Plus (cl : cclass)          (* a class, one or more times *)
| Seq (r1 r2 : regex)         (* r1 then r2 *)
| Alt (r1 r2 : regex)         (* r1 or r2 *)
| Opt (r : regex).            (* an optional group *)

(** A position in the subject is the character before it, if any, and
    the text after it; a continuation says whether the rest of the
    pattern matches from a position. *)
Definition cont : Type := option ascii -> string -> bool.

Definition accept : cont := fun _ _ => true.

Definition wordish (o : option ascii) : bool :=
  match o with Some c => Char.isword c | None => false end.

Definition next (s : string) : option ascii :=
  match s with EmptyString => None | String c _ => Some c end.

(** The dollar without MULTILINE: the end of the subject, or just
    before a newline that ends the subject. *)
Definition at_eol (s : string) : bool :=
  match s with
  | EmptyString => true
  | String c EmptyString => Ascii.eqb c Char.newline
  | _ => false
  end.

Fixpoint lit_k (w : string) (k : cont) (p : option ascii) (s : string)
  : bool :=
  match w with
  | EmptyString => k p s
  | String a w' =>
      match s with
      | String b s' => Ascii.eqb a b && lit_k w' k (Some b) s'
      | EmptyString => false
      end
  end.

Definition one_k (cl : cclass) (k : cont) (p : option ascii)
  (s : string) : bool :=
  match s with
  | String c s' => in_class cl c && k (Some c) s'
  | EmptyString => false
  end.

Fixpoint star_k (cl : cclass) (k : cont) (p : option ascii) (s : string)
  : bool :=
  k p s
  || match s with
     | String c s' => in_class cl c && star_k cl k (Some c) s'
     | EmptyString => false
     end.

Definition plus_k (cl : cclass) (k : cont) : cont :=
  one_k cl (star_k cl k).

Fixpoint matchk (r : regex) (k : cont) (p : option ascii) (s : string)
  : bool :=
  match r with
  | Eps => k p s
  | Bol => match p with None => k p s | Some _ => false end
  | Eol => at_eol s && k p s
  | WordB => xorb (wordish p) (wordish (next s)) && k p s
  | Lit w => lit_k w k p s
  | One cl => one_k cl k p s
  | Star cl => star_k cl k p s
  | Plus cl => plus_k cl k p s
  | Seq r1 r2 => matchk r1 (matchk r2 k) p s
  | Alt r1 r2 => matchk r1 k p s || matchk r2 k p s
  | Opt r1 => matchk r1 k p s || k p s
  end.

(** A match that starts at this position or at a later one. *)
Fixpoint search_from (r : regex) (p : option ascii) (s : string) : bool :=
  matchk r accept p s
  || match s with
     | String c s' => search_from r (Some c) s'
     | EmptyString => false
     end.

Definition search (r : regex) (s : string) : bool := search_from r None s.

(** *** Reading a pattern

    The concrete syntax of the patterns the program passes to
    [re.search]; anything else is refused. *)

Inductive atom : Type :=
| AClass (cl : cclass)
| ARegex (r : regex).

Definition regex_of_atom (a : atom) : regex :=
  match a with AClass cl => One cl | ARegex r => r end.

(** Sequencing that keeps literal text together. *)
Definition seq (a r : regex) : regex :=
  match a, r with
  | _, Eps => a
  | Lit u, Lit v => Lit (u ++ v)
  | Lit u, Seq (Lit v) r' => Seq (Lit (u ++ v)) r'
  | _, _ => Seq a r
  end.

Definition quantified (a : atom) (s : string) : option (regex * string) :=
  match s with
  | String "*" s' =>
      match a with AClass cl => Some (Star cl, s') | ARegex _ => None end
  | String "+" s' =>
      match a with AClass cl => Some (Plus cl, s') | ARegex _ => None end
  | String "?" s' => Some (Opt (regex_of_atom a), s')
  | _ => Some (regex_of_atom a, s)
  end.

Definition escaped (c : ascii) : option atom :=
  if Ascii.eqb c "s" then Some (AClass Space)
  else if Ascii.eqb c "b" then Some (ARegex WordB)
  else if Char.isalnum c then None
  else Some (ARegex (Lit (String c EmptyString))).

Definition is_meta (c : ascii) : bool :=
  existsb (Ascii.eqb c)
    ["*"; "+"; "?"; ")"; "|"; "["; "]"; "{"; "}"]%char.

Fixpoint parse_alt (fuel : nat) (s : string) : option (regex * string) :=
  match fuel with
  | O => None
  | S fuel =>
      match parse_seq fuel s with
      | Some (r, String "|" s') =>
          match parse_alt fuel s' with
          | Some (r', s'') => Some (Alt r r', s'')
          | None => None
          end
      | other => other
      end
  end
with parse_seq (fuel : nat) (s : string) : option (regex * string) :=
  match fuel with
  | O => None
  | S fuel =>
      match s with
      | EmptyString | String ")" _ | String "|" _ => Some (Eps, s)
      | _ =>
          match parse_atom fuel s with
          | Some (a, s') =>
              match quantified a s' with
              | Some (r, s'') =>
                  match parse_seq fuel s'' with
                  | Some (r', s''') => Some (seq r r', s''')
                  | None => None
                  end
              | None => None
              end
          | None => None
          end
      end
  end
with parse_atom (fuel : nat) (s : string) : option (atom * string) :=
  match fuel with
  | O => None
  | S fuel =>
      match s with
      | EmptyString => None
      | String "^" s' => Some (ARegex Bol, s')
      | String "$" s' => Some (ARegex Eol, s')
      | String "." s' => Some (AClass Dot, s')
      | String "\" (String c s') =>
          match escaped c with
          | Some a => Some (a, s')
          | None => None
          end
      | String "\" EmptyString => None
      | String "(" s' =>
          match parse_alt fuel s' with
          | Some (r, String ")" s'') => Some (ARegex r, s'')
          | _ => None
          end
      | String c s' =>
          if is_meta c then None
          else Some (ARegex (Lit (String c EmptyString)), s')
      end
  end.

Definition parse (pattern : string) : option regex :=
  match parse_alt (4 * String.length pattern + 4) pattern with
  | Some (r, EmptyString) => Some r
  | _ => None
  end.

(** [re.search(pattern, s)] as a truth value. *)
Definition re_search (pattern s : string) : bool :=
  match parse pattern with
  | Some r => search r s
  | None => false
  end.

End Re.

Import Re.

Declare Scope regex_scope.
Delimit Scope regex_scope with re.
Bind Scope regex_scope with regex.
Infix "··" := Seq (at level 60, right associativity) : regex_scope.

(** ** The patterns of [map_command_to_mitre] as syntax trees,
       in source order *)

Module Pat.
Local Open Scope regex_scope.

(** The three shapes the rules repeat, for a verb pattern [v]: the verb
    with optional arguments, with arguments, and alone. *)
Definition verb_optargs (v : regex) : regex :=
  Bol ·· Star Space ·· v ·· Opt (Plus Space ·· Star Dot) ·· Eol.
Definition verb_args (v : regex) : regex :=
  Bol ·· Star Space ·· v ·· Plus Space ·· Star Dot ·· Eol.
Definition verb_bare (v : regex) : regex :=
  Bol ·· Star Space ·· v ·· Star Space ·· Eol.

Definition cd := verb_optargs (Lit "cd").
Definition ls := verb_optargs (Lit "ls").
Definition cat := verb_args (Lit "cat").
Definition passwd := WordB ·· Lit "passwd" ·· WordB.
Definition sudoers := WordB ·· Lit "sudoers" ·· WordB.
Definition echo_history :=
  Bol ·· Star Space ·· Lit "echo" ·· Plus Space ·· Star Dot ·· Lit ">"
  ·· Star Space ·· Lit ".zsh_history" ·· Star Space ·· Eol.
Definition whoami := verb_bare (Lit "whoami").
Definition clear := verb_bare (Lit "clear").
Definition uname := verb_optargs (Lit "uname").
Definition sudo := verb_optargs (Lit "sudo").
Definition history := verb_optargs (Lit "history").
Definition poweroff_reboot :=
  verb_bare (Alt (Lit "poweroff") (Lit "reboot")).
Definition wget_curl := verb_args (Alt (Lit "wget") (Lit "curl")).
Definition netstat_ss := verb_optargs (Alt (Lit "netstat") (Lit "ss")).
Definition chmod_chown := verb_args (Alt (Lit "chmod") (Lit "chown")).
Definition find_grep := verb_args (Alt (Lit "find") (Lit "grep")).
Definition systemctl := verb_args (Lit "systemctl").
Definition ps_top := verb_optargs (Alt (Lit "ps") (Lit "top")).
Definition traceroute_ping :=
  verb_args (Alt (Lit "traceroute") (Lit "ping")).

End Pat.

(** ** The classifier: lines 53 to 97 of [map_command_to_mitre]

    The technique ids the chain of conditionals leaves in [techniques].
    The [clear] branch returns the empty list at once (line 73), which is
    what the loop of lines 99 to 119 returns on an empty [techniques]. *)

Definition classify (command : string) : list string :=
  let command := Str.strip command in
  if re_search "^\s*cd(\s+.*)?$" command then ["T1083"]
  else if re_search "^\s*ls(\s+.*)?$" command then ["T1083"]
  else if re_search "^\s*cat\s+.*$" command then
    if re_search "\bpasswd\b" command then ["T1005"; "T1087"]
    else if re_search "\bsudoers\b" command then ["T1005"; "T1087"]
    else ["T1005"]
  else if re_search "^\s*echo\s+.*>\s*\.zsh_history\s*$" command
  then ["T1070"]
  else if re_search "^\s*whoami\s*$" command then ["T1078"]
  else if re_search "^\s*clear\s*$" command then []
  else if re_search "^\s*uname(\s+.*)?$" command then ["T1005"]
  else if re_search "^\s*sudo(\s+.*)?$" command then ["T1078"]
  else if re_search "^\s*history(\s+.*)?$" command then ["T1059"]
  else if re_search "^\s*(poweroff|reboot)\s*$" command then ["T1086"]
  else if re_search "^\s*(wget|curl)\s+.*$" command then ["T1105"]
  else if re_search "^\s*(netstat|ss)(\s+.*)?$" command then ["T1049"]
  else if re_search "^\s*(chmod|chown)\s+.*$" command then ["T1070"]
  else if re_search "^\s*(find|grep)\s+.*$" command then ["T1083"]
  else if re_search "^\s*systemctl\s+.*$" command then ["T1060"]
  else if re_search "^\s*(ps|top)(\s+.*)?$" command then ["T1083"]
  else if re_search "^\s*(traceroute|ping)\s+.*$" command then ["T1069"]
  else ["Unknown"].

(** ** The reference dataset and the results

    [mitre_data['objects']]: every record carries the keys the program
    reads, each possibly absent. *)

Record ext_ref : Type := { external_id : option string }.

Record item : Type := {
  external_references : option (list ext_ref);
  name : option string;
  description : option string;
  solutions : option (list string)
}.

(** The records of the dataset are the mutable store. *)
Abbreviation store := (list item).

(** What [info] is bound to in the loop of lines 100 to 117: a record of
    the dataset itself (not a copy), or the dictionary built for the
    default of [next]. *)
Inductive ref : Type :=
| InData (i : nat)
| Fresh (d : item).

Definition deref (objects : store) (r : ref) : option item :=
  match r with
  | InData i => objects !! i
  | Fresh d => Some d
  end.

(** An element of [results]. *)
Record entry : Type := { command : string; techniques : list ref }.

(** ** State and exceptions *)

Inductive exn : Type := IndexError.

Definition M (A : Type) : Type := store -> exn + (A * store).

Definition ret {A} (a : A) : M A := fun st => inr (a, st).

Definition bind {A B} (m : M A) (f : A -> M B) : M B :=
  fun st =>
    match m st with
    | inl e => inl e
    | inr (a, st') => f a st'
    end.

Notation "'let*' x ':=' m 'in' k" := (bind m (fun x => k))
  (at level 10, x name, m at level 100, k at level 200).

Fixpoint for_each {A R} (xs : list A) (body : A -> R -> M R) (acc : R)
  : M R :=
  match xs with
  | [] => ret acc
  | x :: xs' => let* acc' := body x acc in for_each xs' body acc'
  end.

(** ** The resolver: lines 100 to 117 of [map_command_to_mitre] *)

(** [item.get("external_references", [{}])[0].get("external_id", "")]:
    indexing an empty list raises. *)
Definition primary_id (it : item) : exn + string :=
  match external_references it with
  | None => inr ""
  | Some [] => inl IndexError
  | Some (r :: _) => inr (default "" (external_id r))
  end.

(** [next] on the generator of lines 102 to 105: the records are tried in
    order and the scan stops at the first one that passes the test.  The
    record found comes with its position in the dataset. *)
Fixpoint first_match (technique : string) (objects : list item)
  : exn + option (nat * item) :=
  match objects with
  | [] => inr None
  | it :: rest =>
      match primary_id it with
      | inl e => inl e
      | inr pid =>
          if Str.contains technique pid then inr (Some (0, it))
          else match first_match technique rest with
               | inr (Some (i, found)) => inr (Some (S i, found))
               | other => other
               end
      end
  end.

(** The default of [next], lines 106 to 110. *)
Definition placeholder : item := {|
  external_references := None;
  name := Some "Unknown Technique";
  description := Some "No description available.";
  solutions := Some ["No solutions available."]
|}.

(** [not info.get('solutions')] *)
Definition falsy (o : option (list string)) : bool :=
  match o with
  | None | Some [] => true
  | Some (_ :: _) => false
  end.

(** [info['solutions'] = sol] *)
Definition with_solutions (sol : list string) (d : item) : item := {|
  external_references := external_references d;
  name := name d;
  description := description d;
  solutions := Some sol
|}.

(** [[info.get('description', 'No description available.')]] *)
Definition description_as_solutions (d : item) : list string :=
  [default "No description available." (description d)].

Definition resolve (technique : string) : M ref :=
  fun objects =>
    match first_match technique objects with
    | inl e => inl e
    | inr found =>
        let (info, d) :=
          match found with
          | Some (i, it) => (InData i, it)
          | None => (Fresh placeholder, placeholder)
          end in
        if falsy (solutions d) then
          let d' := with_solutions (description_as_solutions d) d in
          match info with
          | InData i => inr (InData i, <[i := d']> objects)
          | Fresh _ => inr (Fresh d', objects)
          end
        else inr (info, objects)
    end.

Fixpoint resolve_all (techniques : list string) : M (list ref) :=
  match techniques with
  | [] => ret []
  | technique :: rest =>
      let* info := resolve technique in
      let* technique_info := resolve_all rest in
      ret (info :: technique_info)
  end.

Definition map_command_to_mitre (command : string) : M (list ref) :=
  resolve_all (classify command).

(** ** The analyzer: [analyze_bash_history] on the text of the file *)

Definition is_nil {A} (l : list A) : bool :=
  match l with [] => true | _ :: _ => false end.

Definition analyze_command (command : string) (results : list entry)
  : M (list entry) :=
  let* techniques := map_command_to_mitre command in
  ret (if is_nil techniques then results
       else results ++ [{| command := command; techniques := techniques |}]).

Definition analyze_line (line : string) (results : list entry)
  : M (list entry) :=
  for_each (Str.split Char.semicolon (Str.strip line)) analyze_command
    results.

Definition analyze_bash_history (text : string) : M (list entry) :=
  for_each (Str.readlines text) analyze_line [].

(** ** The ordered rule table of the specification

    Following the specification's words: a rule is a pattern with an
    outcome, which emits technique ids, possibly after secondary
    predicates tried in order; the table is evaluated top to bottom, the
    first rule whose predicate matches determines the outcome, and a
    command no rule matches gets the sentinel. *)

Inductive outcome : Type :=
| Emit (ids : list string)
| EmitBy (secondary : list (string * list string)) (otherwise : list string).

Record rule : Type := { pattern : string; result : outcome }.

Definition rule_table : list rule := [
  {| pattern := "^\s*cd(\s+.*)?$"; result := Emit ["T1083"] |};
  {| pattern := "^\s*ls(\s+.*)?$"; result := Emit ["T1083"] |};
  {| pattern := "^\s*cat\s+.*$";
     result := EmitBy [("\bpasswd\b", ["T1005"; "T1087"]);
                       ("\bsudoers\b", ["T1005"; "T1087"])] ["T1005"] |};
  {| pattern := "^\s*echo\s+.*>\s*\.zsh_history\s*$";
     result := Emit ["T1070"] |};
  {| pattern := "^\s*whoami\s*$"; result := Emit ["T1078"] |};
  {| pattern := "^\s*clear\s*$"; result := Emit [] |};
  {| pattern := "^\s*uname(\s+.*)?$"; result := Emit ["T1005"] |};
  {| pattern := "^\s*sudo(\s+.*)?$"; result := Emit ["T1078"] |};
  {| pattern := "^\s*history(\s+.*)?$"; result := Emit ["T1059"] |};
  {| pattern := "^\s*(poweroff|reboot)\s*$"; result := Emit ["T1086"] |};
  {| pattern := "^\s*(wget|curl)\s+.*$"; result := Emit ["T1105"] |};
  {| pattern := "^\s*(netstat|ss)(\s+.*)?$"; result := Emit ["T1049"] |};
  {| pattern := "^\s*(chmod|chown)\s+.*$"; result := Emit ["T1070"] |};
  {| pattern := "^\s*(find|grep)\s+.*$"; result := Emit ["T1083"] |};
  {| pattern := "^\s*systemctl\s+.*$"; result := Emit ["T1060"] |};
  {| pattern := "^\s*(ps|top)(\s+.*)?$"; result := Emit ["T1083"] |};
  {| pattern := "^\s*(traceroute|ping)\s+.*$"; result := Emit ["T1069"] |}
].

Definition matches (r : rule) (command : string) : bool :=
  re_search (pattern r) command.

Fixpoint first_secondary (secondary : list (string * list string))
  (otherwise : list string) (command : string) : list string :=
  match secondary with
  | [] => otherwise
  | (p, ids) :: rest =>
      if re_search p command then ids
      else first_secondary rest otherwise command
  end.

Definition emitted (o : outcome) (command : string) : list string :=
  match o with
  | Emit ids => ids
  | EmitBy secondary otherwise => first_secondary secondary otherwise command
  end.

Fixpoint first_match_wins (rules : list rule) (command : string)
  : list string :=
  match rules with
  | [] => ["Unknown"]
  | r :: rest =>
      if matches r command then emitted (result r) command
      else first_match_wins rest command
  end.

(** The commands of a log, in order: the pieces between semicolons of
    every trimmed line. *)
Definition segments (text : string) : list string :=
  flat_map (fun line => Str.split Char.semicolon (Str.strip line))
    (Str.readlines text).

(** ** Notions used in the statements *)

(** [t] occurs in [s]. *)
Definition substring_of (t s : string) : Prop :=
  exists a b, s = (a ++ t ++ b)%string.

(** The test of line 104 on a record, when it does not raise. *)
Definition is_match (technique : string) (it : item) : Prop :=
  exists pid, primary_id it = inr pid /\ Str.contains technique pid = true.

Definition no_match (technique : string) (it : item) : Prop :=
  exists pid, primary_id it = inr pid /\ Str.contains technique pid = false.

(** What lines 114 and 115 leave of a record. *)
Definition norm (d : item) : item :=
  if falsy (solutions d)
  then with_solutions (description_as_solutions d) d
  else d.

(** A later state of the dataset: every record is as it was, or has got
    the fallback for its solutions. *)
Definition advances (st st' : store) : Prop :=
  Forall2 (fun a b => b = a \/ b = norm a) st st'.

(** A computation only moves the dataset forward, and run again on any
    later state of the dataset it returns the same value and changes
    nothing. *)
Definition stable {A} (m : M A) : Prop :=
  forall st a st',
    m st = inr (a, st') ->
    advances st st' /\ forall u, advances st' u -> m u = inr (a, u).

(** The commands of a log that get an entry, and what an entry is for a
    command. *)
Definition keeps (c : string) : bool := negb (is_nil (classify c)).

Definition entry_of (c : string) (e : entry) : Prop :=
  command e = c
  /\ exists st st', map_command_to_mitre c st = inr (techniques e, st').

(** A record the scan can read: its list of external references, when it
    has one, is not empty. *)
Definition well_formed (it : item) : Prop :=
  external_references it <> Some [].

(** A computation that returns on every dataset the scan can read, and
    leaves such a dataset. *)
Definition total {A} (m : M A) : Prop :=
  forall st,
    Forall well_formed st ->
    exists a st', m st = inr (a, st') /\ Forall well_formed st'.

(** ** A small dataset for the examples *)

Definition technique_record (id nm descr : string) : item := {|
  external_references := Some [{| external_id := Some id |}];
  name := Some nm;
  description := Some descr;
  solutions := None
|}.

Definition sample_data : store := [
  technique_record "T1083" "File and Directory Discovery"
    "Adversaries may enumerate files and directories.";
  technique_record "T1078" "Valid Accounts"
    "Adversaries may obtain and abuse credentials of existing accounts.";
  {| external_references := None;
     name := Some "The MITRE Corporation";
     description := None;
     solutions := None |}
].

(** ** The verbs of the rules *)

(** One of the words starts the text. *)
Definition begins (verbs : list string) (s : string) : bool :=
  existsb (fun w => Str.startswith w s) verbs.

(** The words an anchored pattern asks for after the leading blanks. *)
Definition pattern_verbs (r : regex) : list string :=
  match r with
  | Seq Bol (Seq (Star Space) (Seq (Lit w) _)) => [w]
  | Seq Bol (Seq (Star Space) (Seq (Alt (Lit w1) (Lit w2)) _)) => [w1; w2]
  | _ => []
  end.

Definition nonblank_head (w : string) : bool :=
  match w with
  | EmptyString => false
  | String c _ => negb (Char.isspace c)
  end.

Definition rule_verbs (r : rule) : list string :=
  match parse (pattern r) with
  | Some re => pattern_verbs re
  | None => []
  end.

(** The rule of the table with a given pattern, and the check that no
    verb of a rule starts a verb of a rule with another pattern. *)
Definition rule_of_pattern (p : string) : option rule :=
  List.find (fun r => String.eqb (pattern r) p) rule_table.

Definition prefix_free_table : bool :=
  forallb (fun r1 =>
    forallb (fun r2 =>
      forallb (fun w1 =>
        forallb (fun w2 =>
          implb (Str.startswith w1 w2)
                (String.eqb (pattern r1) (pattern r2)))
          (rule_verbs r2))
        (rule_verbs r1))
      rule_table)
    rule_table.

(** The record the scan of a dataset gives for a technique id. *)
Definition chosen (objects : store) (technique : string) (r : ref) : Prop :=
  match first_match technique objects with
  | inr (Some (i, _)) => r = InData i
  | inr None => r = Fresh placeholder
  | inl _ => False
  end.

(** A reference to a record that has solutions. *)
Definition settled (objects : store) (r : ref) : Prop :=
  exists d s rest, deref objects r = Some d /\ solutions d = Some (s :: rest).

(** [a in s] for a character [a]. *)
Definition has_char (a : ascii) (s : string) : bool :=
  Str.contains (String a EmptyString) s.

(** ** The reports: the loop of lines 189 to 198 of [main] and the
       story of [generate_pdf_report]

    A report reads the entries in the dataset as the analysis left it:
    an entry is shown as its command and the dictionaries its techniques
    are. *)

Definition shown : Type := string * list item.

Fixpoint deref_all (objects : store) (rs : list ref) : option (list item) :=
  match rs with
  | [] => Some []
  | r :: rs' =>
      match deref objects r, deref_all objects rs' with
      | Some d, Some ds => Some (d :: ds)
      | _, _ => None
      end
  end.

Fixpoint show_all (objects : store) (res : list entry)
  : option (list shown) :=
  match res with
  | [] => Some []
  | e :: res' =>
      match deref_all objects (techniques e), show_all objects res' with
      | Some ds, Some v => Some ((command e, ds) :: v)
      | _, _ => None
      end
  end.

(** The exceptions of the reports: indexing a dictionary with a key it
    has not, and building a paragraph from a text the library does not
    accept. *)
Inductive report_error : Type :=
| KeyError (key : string)
| ValueError (text : string).

(** What a report has written so far, and the exception that stopped it
    or its value. *)
Definition W (O A : Type) : Type := (list O * (report_error + A))%type.

Definition wret {O A} (a : A) : W O A := ([], inr a).

Definition wbind {O A B} (m : W O A) (f : A -> W O B) : W O B :=
  match m with
  | (out, inl e) => (out, inl e)
  | (out, inr a) => let (out', r) := f a in (out ++ out', r)
  end.

Notation "'let+' x ':=' m 'in' k" := (wbind m (fun x => k))
  (at level 10, x name, m at level 100, k at level 200).

Definition write {O} (o : O) : W O unit := ([o], inr tt).

(** [d[key]] *)
Definition getitem {O} (value : option string) (key : string) : W O string :=
  match value with
  | Some v => wret v
  | None => ([], inl (KeyError key))
  end.

Fixpoint wfor {O A} (xs : list A) (body : A -> W O unit) : W O unit :=
  match xs with
  | [] => wret tt
  | x :: xs' => let+ _ := body x in wfor xs' body
  end.

(** Lines 192 to 198: what [print] is called with, call after call. *)
Definition print_technique (technique : item) : W string unit :=
  let+ n := getitem (name technique) "name" in
  let+ _ := write ("  Technique: " ++ n)%string in
  let+ d := getitem (description technique) "description" in
  let+ _ := write ("  Description: " ++ d)%string in
  if falsy (solutions technique) then wret tt
  else
    let+ _ := write "  Solutions:" in
    wfor (default [] (solutions technique))
      (fun solution => write ("    * " ++ solution)%string).

Definition print_result (result : shown) : W string unit :=
  let+ _ := write ("Command: " ++ fst result)%string in
  wfor (snd result) print_technique.

(** Lines 189 to 198. *)
Definition print_results (results : list shown) : W string unit :=
  let+ _ := write "Analysis Results:" in
  wfor results print_result.

(** The flowables of the story.  The library parses the text of a
    paragraph as markup, in the style of the paragraph, when the
    paragraph is built, and raises ValueError on a text it cannot
    parse.  Which texts it accepts in which style is the business of
    the library: the story is modelled for any such test, [accepts]. *)
Inductive style : Type := Title | Heading2 | Normal | Bullet.

Inductive flowable : Type :=
| Paragraph (text : string) (sty : style)
| Spacer (width height : nat).

(** [story.append(Paragraph(text, sty))] *)
Definition paragraph (accepts : style -> string -> bool) (text : string)
  (sty : style) : W flowable unit :=
  if accepts sty text then write (Paragraph text sty)
  else ([], inl (ValueError text)).

(** Lines 157 to 163. *)
Definition story_technique (accepts : style -> string -> bool)
  (technique : item)
  : W flowable unit :=
  let+ n := getitem (name technique) "name" in
  let+ _ := paragraph accepts ("Technique: " ++ n) Normal in
  let+ d := getitem (description technique) "description" in
  let+ _ := paragraph accepts ("Description: " ++ d) Normal in
  let+ _ := paragraph accepts "Solutions:" Normal in
  let+ _ := wfor (default [] (solutions technique))
              (fun solution =>
                 paragraph accepts ("  * " ++ solution) Bullet) in
  write (Spacer 1 12).

Definition story_result (accepts : style -> string -> bool) (result : shown)
  : W flowable unit :=
  let+ _ := paragraph accepts ("Command: " ++ fst result) Heading2 in
  let+ _ := write (Spacer 1 6) in
  wfor (snd result) (story_technique accepts).

(** Lines 142 to 163. *)
Definition build_story (accepts : style -> string -> bool)
  (results : list shown)
  : W flowable unit :=
  let+ _ := paragraph accepts "MITRE ATT&CK Mapping Report" Title in
  let+ _ := write (Spacer 1 12) in
  wfor results (story_result accepts).

(** [generate_pdf_report] up to line 163: the story handed to
    [doc.build], or the exception raised while the story is built.
    Laying the story out and writing the file, line 165, is the
    library's and is not modelled. *)
Definition generate_pdf_report (accepts : style -> string -> bool)
  (results : list shown) : report_error + list flowable :=
  match build_story accepts results with
  | (story, inr _) => inr story
  | (_, inl e) => inl e
  end.

(** The texts of the paragraphs of a story. *)
Definition texts (story : list flowable) : list string :=
  flat_map (fun f => match f with
                     | Paragraph t _ => [t]
                     | Spacer _ _ => []
                     end) story.

(** A dictionary with a name and a description. *)
Definition complete (d : item) : bool :=
  match name d, description d with
  | Some _, Some _ => true
  | _, _ => false
  end.

(** What the console report writes for a technique and for an entry
    when nothing is missing. *)
Definition technique_lines (d : item) : list string :=
  [("  Technique: " ++ default "" (name d))%string;
   ("  Description: " ++ default "" (description d))%string;
   "  Solutions:"]
  ++ map (fun solution => ("    * " ++ solution)%string)
       (default [] (solutions d)).

Definition entry_lines (r : shown) : list string :=
  ("Command: " ++ fst r)%string :: flat_map technique_lines (snd r).

(** The flowables the story gets for a technique and for an entry when
    nothing is missing. *)
Definition technique_flowables (d : item) : list flowable :=
  [Paragraph ("Technique: " ++ default "" (name d)) Normal;
   Paragraph ("Description: " ++ default "" (description d)) Normal;
   Paragraph "Solutions:" Normal]
  ++ map (fun solution => Paragraph ("  * " ++ solution) Bullet)
       (default [] (solutions d))
  ++ [Spacer 1 12].

Definition entry_flowables (r : shown) : list flowable :=
  Paragraph ("Command: " ++ fst r) Heading2
  :: Spacer 1 6 :: flat_map technique_flowables (snd r).

(** The whole story when nothing is missing, and the library accepting
    every paragraph of a list of flowables. *)
Definition full_story (results : list shown) : list flowable :=
  Paragraph "MITRE ATT&CK Mapping Report" Title
  :: Spacer 1 12 :: flat_map entry_flowables results.

Definition accepted (accepts : style -> string -> bool)
  (story : list flowable) : Prop :=
  Forall (fun f => match f with
                   | Paragraph t sty => accepts sty t = true
                   | Spacer _ _ => True
                   end) story.

(** ** The classification read off the first word

    The first word of a text, up to its first blank, and what follows
    it. *)
Fixpoint first_word (s : string) : string :=
  match s with
  | EmptyString => EmptyString
  | String c s' =>
      if Char.isspace c then EmptyString else String c (first_word s')
  end.

Fixpoint after_first_word (s : string) : string :=
  match s with
  | EmptyString => EmptyString
  | String c s' => if Char.isspace c then s else after_first_word s'
  end.

Fixpoint noblank (s : string) : bool :=
  match s with
  | EmptyString => true
  | String c s' => negb (Char.isspace c) && noblank s'
  end.

Definition blank_led (s : string) : bool :=
  match s with
  | EmptyString => true
  | String c _ => Char.isspace c
  end.

(** A pattern without anchor at the start and without word boundary:
    what it matches does not depend on what comes before. *)
Fixpoint no_context (r : regex) : bool :=
  match r with
  | Bol | WordB => false
  | Seq r1 r2 | Alt r1 r2 => no_context r1 && no_context r2
  | Opt r1 => no_context r1
  | _ => true
  end.

(** A verb is used alone, with arguments, or with or without. *)
Inductive arity : Type := Alone | WithArgs | OptionalArgs.

Definition verb_table : list (string * (arity * list string)) := [
  ("cd", (OptionalArgs, ["T1083"]));
  ("ls", (OptionalArgs, ["T1083"]));
  ("whoami", (Alone, ["T1078"]));
  ("clear", (Alone, []));
  ("uname", (OptionalArgs, ["T1005"]));
  ("sudo", (OptionalArgs, ["T1078"]));
  ("history", (OptionalArgs, ["T1059"]));
  ("poweroff", (Alone, ["T1086"]));
  ("reboot", (Alone, ["T1086"]));
  ("wget", (WithArgs, ["T1105"]));
  ("curl", (WithArgs, ["T1105"]));
  ("netstat", (OptionalArgs, ["T1049"]));
  ("ss", (OptionalArgs, ["T1049"]));
  ("chmod", (WithArgs, ["T1070"]));
  ("chown", (WithArgs, ["T1070"]));
  ("find", (WithArgs, ["T1083"]));
  ("grep", (WithArgs, ["T1083"]));
  ("systemctl", (WithArgs, ["T1060"]));
  ("ps", (OptionalArgs, ["T1083"]));
  ("top", (OptionalArgs, ["T1083"]));
  ("traceroute", (WithArgs, ["T1069"]));
  ("ping", (WithArgs, ["T1069"]))
].

Definition lookup_verb (w : string) : option (arity * list string) :=
  option_map snd (List.find (fun e => String.eqb w (fst e)) verb_table).

(** The classification of a trimmed command from its first word and
    from whether something follows it; [cat] then looks for its two
    words, [echo] for the redirection to the history file. *)
Definition by_first_word (s : string) : list string :=
  let w := first_word s in
  let alone := Str.is_empty (after_first_word s) in
  if String.eqb w "cat" then
    if alone then ["Unknown"]
    else if re_search "\bpasswd\b" s then ["T1005"; "T1087"]
    else if re_search "\bsudoers\b" s then ["T1005"; "T1087"]
    else ["T1005"]
  else if String.eqb w "echo" then
    if re_search "^\s*echo\s+.*>\s*\.zsh_history\s*$" s then ["T1070"]
    else ["Unknown"]
  else
    match lookup_verb w with
    | Some (Alone, ids) => if alone then ids else ["Unknown"]
    | Some (WithArgs, ids) => if alone then ["Unknown"] else ids
    | Some (OptionalArgs, ids) => ids
    | None => ["Unknown"]
    end.

(** A continuation that does not look at the character before. *)
Definition pfree (k : cont) : Prop := forall p q t, k p t = k q t.

(** The ways a rule goes on after its verb. *)
Definition K_opt : regex := Seq (Opt (Seq (Plus Space) (Star Dot))) Eol.
Definition K_args : regex := Seq (Plus Space) (Seq (Star Dot) Eol).
Definition K_bare : regex := Seq (Star Space) Eol.
Definition K_echo : regex :=
  Seq (Plus Space)
    (Seq (Star Dot)
       (Seq (Lit ">")
          (Seq (Star Space)
             (Seq (Lit ".zsh_history") (Seq (Star Space) Eol))))).

(** * Properties *)

(** ** The patterns read as the syntax trees of [Pat] *)

Lemma parse_patterns :
  map parse
    ["^\s*cd(\s+.*)?$"; "^\s*ls(\s+.*)?$"; "^\s*cat\s+.*$"; "\bpasswd\b";
     "\bsudoers\b"; "^\s*echo\s+.*>\s*\.zsh_history\s*$"; "^\s*whoami\s*$";
     "^\s*clear\s*$"; "^\s*uname(\s+.*)?$"; "^\s*sudo(\s+.*)?$";
     "^\s*history(\s+.*)?$"; "^\s*(poweroff|reboot)\s*$";
     "^\s*(wget|curl)\s+.*$"; "^\s*(netstat|ss)(\s+.*)?$";
     "^\s*(chmod|chown)\s+.*$"; "^\s*(find|grep)\s+.*$";
     "^\s*systemctl\s+.*$"; "^\s*(ps|top)(\s+.*)?$";
     "^\s*(traceroute|ping)\s+.*$"]
  = map Some
    [Pat.cd; Pat.ls; Pat.cat; Pat.passwd; Pat.sudoers; Pat.echo_history;
     Pat.whoami; Pat.clear; Pat.uname; Pat.sudo; Pat.history;
     Pat.poweroff_reboot; Pat.wget_curl; Pat.netstat_ss; Pat.chmod_chown;
     Pat.find_grep; Pat.systemctl; Pat.ps_top; Pat.traceroute_ping].
Proof. vm_compute. reflexivity. Qed.

Lemma re_search_cd s : re_search "^\s*cd(\s+.*)?$" s = search Pat.cd s.
Proof. reflexivity. Qed.

Lemma re_search_ls s : re_search "^\s*ls(\s+.*)?$" s = search Pat.ls s.
Proof. reflexivity. Qed.

Lemma re_search_cat s : re_search "^\s*cat\s+.*$" s = search Pat.cat s.
Proof. reflexivity. Qed.

(** ** Strings *)

Section Strings.

Lemma lstrip_allspace s : Str.allspace s = true -> Str.lstrip s = "".
Proof.
  induction s as [|c s IH]; simpl; [reflexivity|].
  intros [Hc Hs]%andb_true_iff. rewrite Hc. auto.
Qed.

Lemma rstrip_allspace s : Str.allspace s = true -> Str.rstrip s = "".
Proof.
  induction s as [|c s IH]; simpl; [reflexivity|].
  intros [Hc Hs]%andb_true_iff. rewrite (IH Hs), Hc. reflexivity.
Qed.

Lemma strip_allspace s : Str.allspace s = true -> Str.strip s = "".
Proof. intros H. unfold Str.strip. rewrite lstrip_allspace; auto. Qed.

Lemma lstrip_app ws s :
  Str.allspace ws = true -> Str.lstrip (ws ++ s) = Str.lstrip s.
Proof.
  induction ws as [|c ws IH]; simpl; [reflexivity|].
  intros [Hc Hs]%andb_true_iff. rewrite Hc. auto.
Qed.

Lemma rstrip_app s ws :
  Str.allspace ws = true -> Str.rstrip (s ++ ws) = Str.rstrip s.
Proof.
  intros Hws. induction s as [|c s IH]; simpl.
  - apply rstrip_allspace, Hws.
  - rewrite IH. reflexivity.
Qed.

(** A word between blanks is what [strip] keeps, when the word neither
    starts nor ends with a blank. *)
Lemma strip_padded ws1 w ws2 :
  Str.allspace ws1 = true -> Str.allspace ws2 = true ->
  Str.lstrip w = w -> Str.rstrip w = w ->
  Str.strip (ws1 ++ w ++ ws2) = w.
Proof.
  intros H1 H2 Hl Hr. unfold Str.strip.
  rewrite lstrip_app by assumption.
  destruct w as [|c w].
  - simpl. rewrite lstrip_allspace by assumption. reflexivity.
  - assert (Hc : Char.isspace c = false).
    { destruct (Char.isspace c) eqn:Hc; [|reflexivity].
      exfalso. simpl in Hl. rewrite Hc in Hl. clear -Hl.
      assert (Hlen : forall s,
                 String.length (Str.lstrip s) <= String.length s).
      { induction s as [|a s IH]; simpl; [lia|].
        destruct (Char.isspace a); simpl; lia. }
      specialize (Hlen w). rewrite Hl in Hlen. simpl in Hlen. lia. }
    change (String c w ++ ws2)%string with (String c (w ++ ws2)).
    cbn [Str.lstrip]. rewrite Hc.
    change (String c (w ++ ws2)) with (String c w ++ ws2)%string.
    rewrite rstrip_app by assumption. exact Hr.
Qed.

Lemma startswith_app p s : Str.startswith p (p ++ s) = true.
Proof.
  induction p as [|a p IH]; simpl; [reflexivity|].
  rewrite Ascii.eqb_refl. exact IH.
Qed.

Lemma startswith_inv p s :
  Str.startswith p s = true -> exists t, s = (p ++ t)%string.
Proof.
  revert s. induction p as [|a p IH]; intros s H; simpl in *.
  - exists s. reflexivity.
  - destruct s as [|b s]; [discriminate|].
    apply andb_true_iff in H as [Hab Hp].
    apply Ascii.eqb_eq in Hab. subst b.
    destruct (IH _ Hp) as [t ->]. exists t. reflexivity.
Qed.

(** [contains] is the substring test. *)
Lemma contains_substring sub s :
  Str.contains sub s = true <-> exists a b, s = (a ++ sub ++ b)%string.
Proof.
  split.
  - induction s as [|c s IH]; simpl; intros H.
    + rewrite orb_false_r in H. apply startswith_inv in H as [t Ht].
      exists "", t. exact Ht.
    + apply orb_true_iff in H as [H|H].
      * apply startswith_inv in H as [t Ht]. exists "", t. exact Ht.
      * destruct (IH H) as (a & b & ->). exists (String c a), b.
        reflexivity.
  - intros (a & b & ->). induction a as [|c a IH]; simpl.
    + pose proof (startswith_app sub b) as H.
      destruct (sub ++ b)%string; simpl; rewrite H; reflexivity.
    + rewrite IH. apply orb_true_r.
Qed.

End Strings.

(** ** Matching *)

Section Matching.

Lemma search_from_bol r c s : search_from (Seq Bol r) (Some c) s = false.
Proof.
  revert c. induction s as [|b s IH]; intros c; simpl; [reflexivity|].
  apply IH.
Qed.

(** An anchored pattern only matches from the start of the subject. *)
Lemma search_bol r s : search (Seq Bol r) s = matchk r accept None s.
Proof.
  unfold search. destruct s as [|c s]; simpl.
  - apply orb_false_r.
  - rewrite search_from_bol. apply orb_false_r.
Qed.

Lemma lit_k_startswith w k p s :
  lit_k w k p s = true -> Str.startswith w s = true.
Proof.
  revert p s. induction w as [|a w IH]; intros p s H; simpl in *.
  - reflexivity.
  - destruct s as [|b s]; [discriminate|].
    apply andb_true_iff in H as [Hab Hw]. rewrite Hab. simpl. eauto.
Qed.

(** After the leading blanks comes the verb, when the verb starts with
    a character that is not a blank. *)
Lemma verb_after_blanks a w k p s :
  Char.isspace a = false ->
  star_k Space (lit_k (String a w) k) p s = true ->
  Str.startswith (String a w) (Str.lstrip s) = true.
Proof.
  intros Ha. revert p. induction s as [|c s IH]; intros p H.
  - simpl in H. discriminate.
  - cbn [star_k] in H. apply orb_true_iff in H as [H|H].
    + pose proof (lit_k_startswith _ _ _ _ H) as Hs.
      assert (Hac : a = c).
      { simpl in Hs. apply andb_true_iff in Hs as [Hs _].
        apply Ascii.eqb_eq in Hs. exact Hs. }
      subst c. simpl. rewrite Ha. exact Hs.
    + apply andb_true_iff in H as [Hc H]. simpl in Hc.
      simpl. rewrite Hc. eapply IH, H.
Qed.

Lemma cd_verb s :
  search Pat.cd s = true -> Str.startswith "cd" (Str.lstrip s) = true.
Proof.
  unfold Pat.cd, Pat.verb_optargs. rewrite search_bol.
  cbn [matchk]. apply verb_after_blanks. reflexivity.
Qed.

Lemma ls_verb s :
  search Pat.ls s = true -> Str.startswith "ls" (Str.lstrip s) = true.
Proof.
  unfold Pat.ls, Pat.verb_optargs. rewrite search_bol.
  cbn [matchk]. apply verb_after_blanks. reflexivity.
Qed.

Lemma cat_verb s :
  search Pat.cat s = true -> Str.startswith "cat" (Str.lstrip s) = true.
Proof.
  unfold Pat.cat, Pat.verb_args. rewrite search_bol.
  cbn [matchk]. apply verb_after_blanks. reflexivity.
Qed.

(** The [cat] rule excludes the two rules tried before it. *)
Lemma cat_not_cd_ls s :
  search Pat.cat s = true ->
  search Pat.cd s = false /\ search Pat.ls s = false.
Proof.
  intros Hcat%cat_verb. apply startswith_inv in Hcat as [t Ht].
  split.
  - destruct (search Pat.cd s) eqn:E; [|reflexivity].
    apply cd_verb, startswith_inv in E as [t' Ht'].
    rewrite Ht in Ht'. discriminate.
  - destruct (search Pat.ls s) eqn:E; [|reflexivity].
    apply ls_verb, startswith_inv in E as [t' Ht'].
    rewrite Ht in Ht'. discriminate.
Qed.

End Matching.

(** ** The classifier *)

Section Classifier.

(** The chain of conditionals is the ordered table, tried top to
    bottom. *)
Lemma classify_table command :
  classify command = first_match_wins rule_table (Str.strip command).
Proof.
  unfold classify, rule_table.
  cbn [first_match_wins]. unfold matches.
  cbn [pattern result emitted first_secondary].
  repeat match goal with
         | |- context [re_search ?p ?s] => destruct (re_search p s)
         end; reflexivity.
Qed.

Lemma first_match_wins_at pre r post command :
  (forall r', In r' pre -> matches r' command = false) ->
  matches r command = true ->
  first_match_wins (pre ++ r :: post) command
  = emitted (result r) command.
Proof.
  intros Hpre Hr. induction pre as [|r0 pre IH]; simpl.
  - rewrite Hr. reflexivity.
  - rewrite (Hpre r0) by (left; reflexivity).
    apply IH. intros r' Hin. apply Hpre. right. exact Hin.
Qed.

Lemma first_match_wins_none rules command :
  (forall r, In r rules -> matches r command = false) ->
  first_match_wins rules command = ["Unknown"].
Proof.
  induction rules as [|r0 rules IH]; intros H; simpl; [reflexivity|].
  rewrite (H r0) by (left; reflexivity).
  apply IH. intros r Hin. apply H. right. exact Hin.
Qed.

Lemma classify_unmatched command :
  (forall r, In r rule_table -> matches r (Str.strip command) = false) ->
  classify command = ["Unknown"].
Proof.
  intros H. rewrite classify_table. apply first_match_wins_none, H.
Qed.

Lemma classify_blank command :
  Str.allspace command = true -> classify command = ["Unknown"].
Proof.
  intros H. unfold classify. rewrite (strip_allspace _ H).
  vm_compute. reflexivity.
Qed.

Lemma classify_clear ws1 ws2 :
  Str.allspace ws1 = true -> Str.allspace ws2 = true ->
  classify (ws1 ++ "clear" ++ ws2) = [].
Proof.
  intros H1 H2. unfold classify.
  rewrite (strip_padded ws1 "clear" ws2 H1 H2 eq_refl eq_refl).
  vm_compute. reflexivity.
Qed.

Lemma classify_cat command :
  re_search "^\s*cat\s+.*$" (Str.strip command) = true ->
  classify command
  = first_secondary [("\bpasswd\b", ["T1005"; "T1087"]);
                     ("\bsudoers\b", ["T1005"; "T1087"])] ["T1005"]
      (Str.strip command).
Proof.
  intros H. unfold classify. cbn [first_secondary].
  destruct (cat_not_cd_ls (Str.strip command) H) as [Hcd Hls].
  rewrite re_search_cd, re_search_ls, Hcd, Hls, H. reflexivity.
Qed.

End Classifier.

(** C5. [cat /etc/passwd] and [cat /etc/sudoers] are classified as
    T1005 then T1087, [cat foo.txt] as T1005 alone, and so is every
    command that, once trimmed, matches the [cat] rule and has neither
    [passwd] nor [sudoers] as a whole word. *)
Theorem C5_cat_rule :
  classify "cat /etc/passwd" = ["T1005"; "T1087"]
  /\ classify "cat /etc/sudoers" = ["T1005"; "T1087"]
  /\ classify "cat foo.txt" = ["T1005"]
  /\ forall command,
       re_search "^\s*cat\s+.*$" (Str.strip command) = true ->
       re_search "\bpasswd\b" (Str.strip command) = false ->
       re_search "\bsudoers\b" (Str.strip command) = false ->
       classify command = ["T1005"].
Proof.
  split; [vm_compute; reflexivity|].
  split; [vm_compute; reflexivity|].
  split; [vm_compute; reflexivity|].
  intros command Hcat Hp Hs. rewrite (classify_cat _ Hcat).
  cbn [first_secondary]. rewrite Hp, Hs. reflexivity.
Qed.

Lemma C5_cat_rule_witness :
  classify "  cat notes/passwords.txt	" = ["T1005"].
Proof.
  apply (proj2 (proj2 (proj2 C5_cat_rule))); vm_compute; reflexivity.
Defined.

(** C7. The rules are tried in the order of the table and the first
    rule whose predicate matches the trimmed command decides alone what
    is emitted: whatever the later rules are, the classification is the
    outcome of that rule.  So [sudo cat /etc/passwd], which the [sudo]
    rule matches, gets T1078 and nothing from the [passwd] predicate,
    which matches it too. *)
Theorem C7_first_match_wins (command : string) (pre post : list rule)
  (r : rule) :
  rule_table = pre ++ r :: post ->
  (forall r', In r' pre -> matches r' (Str.strip command) = false) ->
  matches r (Str.strip command) = true ->
  classify command = emitted (result r) (Str.strip command)
  /\ (classify "sudo cat /etc/passwd" = ["T1078"]
      /\ re_search "\bpasswd\b" "sudo cat /etc/passwd" = true).
Proof.
  intros Htable Hpre Hr. split.
  - rewrite classify_table, Htable. apply first_match_wins_at; assumption.
  - split; vm_compute; reflexivity.
Qed.

Lemma C7_first_match_wins_witness :
  classify "sudo cat /etc/passwd"
  = emitted (Emit ["T1078"]) (Str.strip "sudo cat /etc/passwd").
Proof.
  refine (proj1 (C7_first_match_wins "sudo cat /etc/passwd"
            (firstn 7 rule_table) (skipn 8 rule_table)
            {| pattern := "^\s*sudo(\s+.*)?$"; result := Emit ["T1078"] |}
            eq_refl _ _)).
  - intros r' Hin. simpl in Hin.
    repeat (destruct Hin as [<-|Hin]; [vm_compute; reflexivity|]).
    destruct Hin.
  - vm_compute. reflexivity.
Defined.

(** ** The scan of the dataset *)

Section Scan.

Variable technique : string.

Lemma no_match_not_match it : no_match technique it -> ~ is_match technique it.
Proof. intros (p & Hp & Hc) (q & Hq & Hd). congruence. Qed.

Lemma first_match_Some objects j it :
  first_match technique objects = inr (Some (j, it)) ->
  objects !! j = Some it
  /\ is_match technique it
  /\ forall k it', k < j -> objects !! k = Some it' -> no_match technique it'.
Proof.
  revert j. induction objects as [|x rest IH]; intros j H; simpl in H.
  - discriminate.
  - destruct (primary_id x) as [e|pid] eqn:Hpid; [discriminate|].
    destruct (Str.contains technique pid) eqn:Hc.
    + injection H as <- <-. split; [reflexivity|]. split.
      * exists pid. auto.
      * intros k it' Hk. lia.
    + destruct (first_match technique rest) as [e|[[i found]|]] eqn:Hr;
        try discriminate.
      injection H as <- <-. destruct (IH _ eq_refl) as (Hl & Hm & Hbefore).
      split; [exact Hl|]. split; [exact Hm|].
      intros [|k] it' Hk Hlook; simpl in Hlook.
      * injection Hlook as <-. exists pid. auto.
      * apply (Hbefore k); [lia|exact Hlook].
Qed.

Lemma first_match_None objects :
  first_match technique objects = inr None <->
  Forall (no_match technique) objects.
Proof.
  induction objects as [|x rest IH]; simpl.
  - split; [constructor|reflexivity].
  - split.
    + intros H. destruct (primary_id x) as [e|pid] eqn:Hpid; [discriminate|].
      destruct (Str.contains technique pid) eqn:Hc; [discriminate|].
      destruct (first_match technique rest) as [e|[[i found]|]];
        try discriminate.
      constructor; [exists pid; auto|]. apply IH. reflexivity.
    + intros H. apply Forall_cons in H as [(pid & Hpid & Hc) Hrest].
      rewrite Hpid, Hc. apply IH in Hrest. rewrite Hrest. reflexivity.
Qed.

(** The scan of a dataset that continues another one. *)
Lemma first_match_app pre post :
  first_match technique (pre ++ post)
  = match first_match technique pre with
    | inr None =>
        match first_match technique post with
        | inr (Some (i, found)) => inr (Some (length pre + i, found))
        | other => other
        end
    | other => other
    end.
Proof.
  induction pre as [|x pre IH]; simpl.
  - destruct (first_match technique post) as [e|[[i found]|]]; reflexivity.
  - destruct (primary_id x) as [e|pid]; [reflexivity|].
    destruct (Str.contains technique pid); [reflexivity|].
    rewrite IH.
    destruct (first_match technique pre) as [e|[[i found]|]];
      try reflexivity.
    destruct (first_match technique post) as [e|[[i found]|]]; reflexivity.
Qed.

Lemma primary_id_norm d : primary_id (norm d) = primary_id d.
Proof. unfold norm. destruct (falsy (solutions d)); reflexivity. Qed.

(** The scan does not look at the solutions: in a later state of the
    dataset it stops at the same place. *)
Lemma first_match_advances st u :
  advances st u ->
  match first_match technique st with
  | inl e => first_match technique u = inl e
  | inr None => first_match technique u = inr None
  | inr (Some (j, a)) =>
      exists b, first_match technique u = inr (Some (j, b)) /\ u !! j = Some b
  end.
Proof.
  induction 1 as [|a b st u Hab Hrest IH]; simpl; [reflexivity|].
  assert (Hpid : primary_id b = primary_id a).
  { destruct Hab as [->| ->]; [reflexivity|apply primary_id_norm]. }
  rewrite Hpid. destruct (primary_id a) as [e|pid]; [reflexivity|].
  destruct (Str.contains technique pid).
  - exists b. auto.
  - destruct (first_match technique st) as [e|[[i found]|]].
    + rewrite IH. reflexivity.
    + destruct IH as (b' & -> & Hl). exists b'. auto.
    + rewrite IH. reflexivity.
Qed.

End Scan.

(** ** Later states of the dataset *)

Section Advances.

Lemma falsy_norm d : falsy (solutions (norm d)) = false.
Proof. unfold norm. destruct (falsy (solutions d)) eqn:E; [reflexivity|exact E]. Qed.

Lemma norm_truthy d : falsy (solutions d) = false -> norm d = d.
Proof. unfold norm. intros ->. reflexivity. Qed.

Lemma norm_norm d : norm (norm d) = norm d.
Proof. apply norm_truthy, falsy_norm. Qed.

Lemma advances_refl st : advances st st.
Proof. apply Forall_Forall2_diag, Forall_forall. auto. Qed.

Lemma advances_trans st1 st2 st3 :
  advances st1 st2 -> advances st2 st3 -> advances st1 st3.
Proof.
  intros H12. revert st3. induction H12 as [|a b st1 st2 Hab H12 IH];
    intros st3 H23; inversion H23 as [|b' c st2' st3' Hbc H23']; subst.
  - constructor.
  - constructor; [|apply IH, H23'].
    destruct Hab as [->| ->], Hbc as [->| ->]; rewrite ?norm_norm; auto.
Qed.

Lemma advances_length st u : advances st u -> length u = length st.
Proof. intros H. symmetry. eapply Forall2_length, H. Qed.

Lemma advances_lookup st u i a :
  advances st u -> st !! i = Some a ->
  exists b, u !! i = Some b /\ (b = a \/ b = norm a).
Proof. intros H Ha. eapply Forall2_lookup_l in H; eauto. Qed.

Lemma advances_insert st i it :
  st !! i = Some it -> advances st (<[i := norm it]> st).
Proof.
  intros Hi. rewrite <- (list_insert_id st i it Hi) at 1.
  apply Forall2_insert; [apply advances_refl|auto].
Qed.

(** A record that has solutions keeps them. *)
Lemma advances_truthy st u i d :
  advances st u -> st !! i = Some d -> falsy (solutions d) = false ->
  u !! i = Some d.
Proof.
  intros H Hi Hd. destruct (advances_lookup _ _ _ _ H Hi) as (b & Hb & [->| ->]).
  - exact Hb.
  - rewrite Hb, norm_truthy by exact Hd. reflexivity.
Qed.

End Advances.

(** ** The resolver *)

Section Resolver.

(** [resolve] in one piece: the record found gets the fallback in place,
    the record built for the default is returned as it is. *)
Lemma resolve_norm technique st :
  resolve technique st
  = match first_match technique st with
    | inl e => inl e
    | inr (Some (i, it)) => inr (InData i, <[i := norm it]> st)
    | inr None => inr (Fresh placeholder, st)
    end.
Proof.
  unfold resolve.
  destruct (first_match technique st) as [e|[[i it]|]] eqn:Hf;
    [reflexivity| |reflexivity].
  apply first_match_Some in Hf as (Hi & _).
  cbn beta iota. unfold norm. destruct (falsy (solutions it)).
  - reflexivity.
  - rewrite (list_insert_id st i it Hi). reflexivity.
Qed.

Lemma resolve_advances technique st r st' :
  resolve technique st = inr (r, st') -> advances st st'.
Proof.
  rewrite resolve_norm.
  destruct (first_match technique st) as [e|[[i it]|]] eqn:Hf;
    intros H; inversion H; subst.
  - apply first_match_Some in Hf as (Hi & _). apply advances_insert, Hi.
  - apply advances_refl.
Qed.

Lemma stable_resolve technique : stable (resolve technique).
Proof.
  intros st r st' H. split; [eapply resolve_advances, H|].
  intros u Hu. pose proof (resolve_advances _ _ _ _ H) as Hst.
  pose proof (first_match_advances technique st u
                (advances_trans _ _ _ Hst Hu)) as Hscan.
  rewrite resolve_norm in H. rewrite resolve_norm.
  destruct (first_match technique st) as [e|[[i it]|]] eqn:Hf;
    inversion H; subst; clear H.
  - destruct Hscan as (b & -> & Hb).
    apply first_match_Some in Hf as (Hi & _).
    assert (Hn : <[i := norm it]> st !! i = Some (norm it)).
    { apply list_lookup_insert_eq. eapply lookup_lt_Some, Hi. }
    pose proof (advances_truthy _ _ _ _ Hu Hn (falsy_norm it)) as Hui.
    assert (b = norm it) as -> by congruence.
    rewrite norm_norm, (list_insert_id u i _ Hui). reflexivity.
  - rewrite Hscan. reflexivity.
Qed.

End Resolver.

(** ** Stable computations *)

Section Stable.

Lemma stable_ret {A} (a : A) : stable (ret a).
Proof.
  intros st b st' H. inversion H; subst. split; [apply advances_refl|].
  reflexivity.
Qed.

Lemma stable_bind {A B} (m : M A) (f : A -> M B) :
  stable m -> (forall a, stable (f a)) -> stable (bind m f).
Proof.
  intros Hm Hf st b st2 H. unfold bind in *.
  destruct (m st) as [e|[a st1]] eqn:Em; [discriminate|].
  destruct (Hm _ _ _ Em) as [H01 Hagain].
  destruct (Hf a _ _ _ H) as [H12 Hfagain].
  split; [eapply advances_trans; eassumption|].
  intros u Hu. rewrite (Hagain u) by (eapply advances_trans; eassumption).
  apply Hfagain, Hu.
Qed.

Lemma stable_for_each {A R} (body : A -> R -> M R) xs :
  (forall x acc, stable (body x acc)) ->
  forall acc, stable (for_each xs body acc).
Proof.
  intros Hbody. induction xs as [|x xs IH]; intros acc; simpl.
  - apply stable_ret.
  - apply stable_bind; [apply Hbody|apply IH].
Qed.

Lemma stable_resolve_all techniques : stable (resolve_all techniques).
Proof.
  induction techniques as [|t ts IH]; simpl.
  - apply stable_ret.
  - apply stable_bind; [apply stable_resolve|]. intros info.
    apply stable_bind; [apply IH|]. intros rest. apply stable_ret.
Qed.

Lemma stable_analyze_command c results : stable (analyze_command c results).
Proof.
  apply stable_bind; [apply stable_resolve_all|]. intros l. apply stable_ret.
Qed.

Lemma stable_analyze text : stable (analyze_bash_history text).
Proof.
  apply stable_for_each. intros line acc.
  apply stable_for_each. apply stable_analyze_command.
Qed.

End Stable.

(** ** The analyzer *)

Section Analyzer.

Lemma for_each_app {A R} (body : A -> R -> M R) xs ys acc st :
  for_each (xs ++ ys) body acc st
  = bind (for_each xs body acc) (for_each ys body) st.
Proof.
  revert acc st. induction xs as [|x xs IH]; intros acc st; simpl.
  - reflexivity.
  - unfold bind. destruct (body x acc st) as [e|[acc' st']].
    + reflexivity.
    + rewrite IH. reflexivity.
Qed.

(** The two nested loops are one loop over the commands of the log. *)
Lemma analyze_segments text st :
  analyze_bash_history text st
  = for_each (segments text) analyze_command [] st.
Proof.
  unfold analyze_bash_history, segments.
  generalize (@nil entry) as acc. revert st.
  induction (Str.readlines text) as [|line lines IH]; intros st acc; simpl.
  - reflexivity.
  - rewrite for_each_app. unfold bind, analyze_line.
    destruct (for_each _ analyze_command acc st) as [e|[acc' st']].
    + reflexivity.
    + apply IH.
Qed.

Lemma resolve_all_length techniques st l st' :
  resolve_all techniques st = inr (l, st') -> length l = length techniques.
Proof.
  revert st l st'. induction techniques as [|t ts IH]; intros st l st' H;
    simpl in H.
  - inversion H. reflexivity.
  - unfold bind, ret in H.
    destruct (resolve t st) as [e|[r st1]]; [discriminate|].
    destruct (resolve_all ts st1) as [e|[rest st2]] eqn:E; [discriminate|].
    inversion H; subst. simpl. f_equal. eapply IH, E.
Qed.

Lemma analyze_command_inv c results st res st' :
  analyze_command c results st = inr (res, st') ->
  exists l,
    map_command_to_mitre c st = inr (l, st')
    /\ is_nil l = is_nil (classify c)
    /\ res = (if is_nil l then results
              else results ++ [{| command := c; techniques := l |}]).
Proof.
  unfold analyze_command, bind, ret. intros H.
  destruct (map_command_to_mitre c st) as [e|[l st1]] eqn:E; [discriminate|].
  inversion H; subst. exists l. split; [reflexivity|]. split; [|reflexivity].
  apply resolve_all_length in E.
  destruct l, (classify c); simpl in *; congruence.
Qed.

(** The entries are those of the commands whose classification is not
    empty, in the order of the log. *)
Lemma for_each_commands segs acc st res st' :
  for_each segs analyze_command acc st = inr (res, st') ->
  exists new,
    res = acc ++ new /\ Forall2 entry_of (List.filter keeps segs) new.
Proof.
  revert acc st. induction segs as [|c segs IH]; intros acc st H; simpl in H.
  - inversion H; subst. exists []. rewrite app_nil_r. split; constructor.
  - unfold bind in H.
    destruct (analyze_command c acc st) as [e|[acc1 st1]] eqn:E;
      [discriminate|].
    apply analyze_command_inv in E as (l & Hl & Hnil & ->).
    destruct (IH _ _ H) as (new & -> & Hnew).
    simpl. unfold keeps at 1. rewrite <- Hnil.
    destruct (is_nil l) eqn:El; simpl.
    + exists new. split; [reflexivity|exact Hnew].
    + exists ({| command := c; techniques := l |} :: new).
      rewrite <- app_assoc. split; [reflexivity|].
      constructor; [|exact Hnew]. split; [reflexivity|]. simpl. eauto.
Qed.

Lemma analyze_entries text st res st' :
  analyze_bash_history text st = inr (res, st') ->
  Forall2 entry_of (List.filter keeps (segments text)) res.
Proof.
  rewrite analyze_segments. intros H.
  apply for_each_commands in H as (new & -> & H). exact H.
Qed.

Lemma analyze_commands text st res st' :
  analyze_bash_history text st = inr (res, st') ->
  map command res = List.filter keeps (segments text).
Proof.
  intros H. apply analyze_entries in H.
  induction H as [|c e cs es [Hc _] _ IH]; simpl; [reflexivity|].
  rewrite Hc, IH. reflexivity.
Qed.

Lemma entry_of_commands cs es :
  Forall2 entry_of cs es -> map command es = cs.
Proof.
  induction 1 as [|c e cs es [Hc _] _ IH]; simpl; [reflexivity|].
  rewrite Hc, IH. reflexivity.
Qed.

(** A run only touches the records its results refer to. *)
Lemma resolve_frame technique st r st' j :
  resolve technique st = inr (r, st') -> st' !! j = st !! j \/ r = InData j.
Proof.
  rewrite resolve_norm.
  destruct (first_match technique st) as [e|[[i it]|]]; intros H;
    inversion H; subst; [|left; reflexivity].
  destruct (Nat.eq_dec i j) as [->|Hne]; [right; reflexivity|].
  left. apply list_lookup_insert_ne, Hne.
Qed.

Lemma resolve_all_frame techniques st l st' j :
  resolve_all techniques st = inr (l, st') ->
  st' !! j = st !! j \/ In (InData j) l.
Proof.
  revert st l st'. induction techniques as [|t ts IH]; intros st l st' H;
    simpl in H.
  - inversion H. left. reflexivity.
  - unfold bind, ret in H.
    destruct (resolve t st) as [e|[r st1]] eqn:E1; [discriminate|].
    destruct (resolve_all ts st1) as [e|[rest st2]] eqn:E2; [discriminate|].
    inversion H; subst.
    destruct (IH _ _ _ E2) as [Hj|Hj]; [|right; right; exact Hj].
    destruct (resolve_frame _ _ _ _ j E1) as [Hj1| ->].
    + left. congruence.
    + right. left. reflexivity.
Qed.

Lemma for_each_frame segs acc st res st' j :
  for_each segs analyze_command acc st = inr (res, st') ->
  st' !! j = st !! j
  \/ exists e new, res = acc ++ new /\ In e new /\ In (InData j) (techniques e).
Proof.
  revert acc st. induction segs as [|c segs IH]; intros acc st H; simpl in H.
  - inversion H. left. reflexivity.
  - unfold bind in H.
    destruct (analyze_command c acc st) as [e|[acc1 st1]] eqn:E;
      [discriminate|].
    pose proof (for_each_commands _ _ _ _ _ H) as (new & Hres & _).
    apply analyze_command_inv in E as (l & Hl & _ & Hacc1).
    destruct (IH _ _ H) as [Hj|(e & new' & Hres' & He & Hin)].
    + destruct (resolve_all_frame _ _ _ _ j Hl) as [Hj1|Hin].
      * left. congruence.
      * right. destruct l as [|r l]; [destruct Hin|]. simpl in Hacc1.
        subst acc1. exists {| command := c; techniques := r :: l |}.
        exists ([{| command := c; techniques := r :: l |}] ++ new).
        rewrite Hres, <- app_assoc. split; [reflexivity|].
        split; [left; reflexivity|exact Hin].
    + right. subst acc1. destruct (is_nil l).
      * exists e, new'. auto.
      * exists e, ([{| command := c; techniques := l |}] ++ new').
        rewrite Hres', <- app_assoc. split; [reflexivity|].
        split; [right; exact He|exact Hin].
Qed.

(** Once the scan for a technique raises, so does the whole run: the
    scan raises in every later state of the dataset too. *)
Lemma resolve_all_abort technique techniques st :
  In technique techniques ->
  first_match technique st = inl IndexError ->
  resolve_all techniques st = inl IndexError.
Proof.
  revert st. induction techniques as [|t ts IH]; intros st Hin Hbad;
    [destruct Hin|].
  simpl. unfold bind.
  destruct (resolve t st) as [[]|[r st1]] eqn:E; [reflexivity|].
  destruct Hin as [->|Hin].
  - rewrite resolve_norm, Hbad in E. discriminate.
  - pose proof (first_match_advances technique _ _ (resolve_advances _ _ _ _ E))
      as Hscan.
    rewrite Hbad in Hscan. rewrite (IH _ Hin Hscan). reflexivity.
Qed.

Lemma for_each_abort technique segs acc st :
  (exists c, In c segs /\ In technique (classify c)) ->
  first_match technique st = inl IndexError ->
  for_each segs analyze_command acc st = inl IndexError.
Proof.
  revert acc st. induction segs as [|c segs IH];
    intros acc st (c0 & Hc0 & Ht) Hbad; [destruct Hc0|].
  simpl. unfold bind.
  destruct (analyze_command c acc st) as [[]|[acc1 st1]] eqn:E;
    [reflexivity|].
  destruct Hc0 as [->|Hc0].
  - apply analyze_command_inv in E as (l & Hl & _).
    unfold map_command_to_mitre in Hl.
    rewrite (resolve_all_abort _ _ _ Ht Hbad) in Hl. discriminate.
  - apply IH; [eauto|].
    pose proof (first_match_advances technique _ _
                  (proj1 (stable_analyze_command _ _ _ _ _ E))) as Hscan.
    rewrite Hbad in Hscan. exact Hscan.
Qed.

End Analyzer.

(** ** Runs that return *)

Section Total.

Lemma well_formed_primary_id it :
  well_formed it -> exists pid, primary_id it = inr pid.
Proof.
  unfold well_formed, primary_id.
  destruct (external_references it) as [[|r rs]|]; intros H; eauto.
  congruence.
Qed.

Lemma well_formed_norm it : well_formed it -> well_formed (norm it).
Proof. unfold well_formed, norm. destruct (falsy (solutions it)); auto. Qed.

Lemma first_match_total technique st :
  Forall well_formed st -> exists o, first_match technique st = inr o.
Proof.
  induction 1 as [|it st Hit _ [o IH]]; simpl; [eauto|].
  destruct (well_formed_primary_id _ Hit) as [pid ->].
  destruct (Str.contains technique pid); [eauto|].
  rewrite IH. destruct o as [[i found]|]; eauto.
Qed.

Lemma total_resolve technique : total (resolve technique).
Proof.
  intros st Hst. rewrite resolve_norm.
  destruct (first_match_total technique st Hst) as [[[i it]|] Hf];
    rewrite Hf; [|eauto].
  eexists _, _. split; [reflexivity|].
  apply first_match_Some in Hf as (Hi & _).
  apply Forall_insert; [exact Hst|].
  apply well_formed_norm. eapply Forall_lookup_1; eassumption.
Qed.

Lemma total_ret {A} (a : A) : total (ret a).
Proof. intros st Hst. exists a, st. auto. Qed.

Lemma total_bind {A B} (m : M A) (f : A -> M B) :
  total m -> (forall a, total (f a)) -> total (bind m f).
Proof.
  intros Hm Hf st Hst. unfold bind.
  destruct (Hm st Hst) as (a & st1 & -> & Hst1). apply Hf, Hst1.
Qed.

Lemma total_for_each {A R} (body : A -> R -> M R) xs :
  (forall x acc, total (body x acc)) ->
  forall acc, total (for_each xs body acc).
Proof.
  intros Hbody. induction xs as [|x xs IH]; intros acc; simpl.
  - apply total_ret.
  - apply total_bind; [apply Hbody|apply IH].
Qed.

Lemma total_resolve_all techniques : total (resolve_all techniques).
Proof.
  induction techniques as [|t ts IH]; simpl.
  - apply total_ret.
  - apply total_bind; [apply total_resolve|]. intros info.
    apply total_bind; [apply IH|]. intros rest. apply total_ret.
Qed.

Lemma total_analyze text : total (analyze_bash_history text).
Proof.
  apply total_for_each. intros line acc.
  apply total_for_each. intros c results.
  apply total_bind; [apply total_resolve_all|]. intros l. apply total_ret.
Qed.

(** On a dataset the scan can read, the analysis returns. *)
Lemma analyze_returns text st :
  Forall well_formed st ->
  exists res st', analyze_bash_history text st = inr (res, st').
Proof.
  intros Hst. destruct (total_analyze text st Hst) as (res & st' & H & _).
  eauto.
Qed.

Lemma sample_data_well_formed : Forall well_formed sample_data.
Proof. repeat constructor; discriminate. Qed.

End Total.

(** * The claims about the resolver *)

Lemma not_contains_substring t s :
  Str.contains t s = false <-> ~ substring_of t s.
Proof.
  unfold substring_of. rewrite <- contains_substring.
  destruct (Str.contains t s); split; congruence.
Qed.

(** C1, as stated, fails.  On the empty dataset a command that no rule
    matches resolves to the record built for the default, whose solutions
    are "No solutions available." and not the description text; and on a
    dataset with a record whose identifier contains "Unknown" the
    sentinel resolves to that record. *)
Lemma C1_counterexample :
  (forall r, In r rule_table -> matches r (Str.strip "frobnicate") = false)
  /\ (exists d,
         resolve "Unknown" [] = inr (Fresh d, [])
         /\ name d = Some "Unknown Technique"
         /\ solutions d = Some ["No solutions available."]
         /\ solutions d <> Some ["No description available."])
  /\ (exists st',
         resolve "Unknown" [technique_record "Unknown-7" "Draft" "To do."]
         = inr (InData 0, st')).
Proof.
  split; [|split].
  - intros r Hin. simpl in Hin.
    repeat (destruct Hin as [<-|Hin]; [vm_compute; reflexivity|]).
    destruct Hin.
  - exists placeholder. repeat split. discriminate.
  - eexists. vm_compute. reflexivity.
Qed.

(** C1, amended.  A command that, once trimmed, matches none of the
    rules is classified as the sentinel alone; and on a dataset where no
    record has an identifier that contains "Unknown" (and every record
    can be read), the sentinel resolves to the record built for the
    default, with name "Unknown Technique", description "No description
    available." and solutions "No solutions available.", the dataset
    being left as it is. *)
Theorem C1_unknown (command : string) (objects : store) :
  (forall r, In r rule_table -> matches r (Str.strip command) = false) ->
  Forall (no_match "Unknown") objects ->
  classify command = ["Unknown"]
  /\ resolve "Unknown" objects = inr (Fresh placeholder, objects)
  /\ map_command_to_mitre command objects
     = inr ([Fresh placeholder], objects)
  /\ name placeholder = Some "Unknown Technique"
  /\ description placeholder = Some "No description available."
  /\ solutions placeholder = Some ["No solutions available."].
Proof.
  intros Hrules Hdata.
  assert (Hc : classify command = ["Unknown"])
    by (apply classify_unmatched, Hrules).
  assert (Hr : resolve "Unknown" objects = inr (Fresh placeholder, objects)).
  { rewrite resolve_norm. apply first_match_None in Hdata.
    rewrite Hdata. reflexivity. }
  split; [exact Hc|]. split; [exact Hr|]. split; [|auto].
  unfold map_command_to_mitre. rewrite Hc. simpl. unfold bind, ret.
  rewrite Hr. reflexivity.
Qed.

Lemma C1_unknown_witness :
  classify "frobnicate" = ["Unknown"]
  /\ resolve "Unknown" sample_data = inr (Fresh placeholder, sample_data).
Proof.
  refine (let H := C1_unknown "frobnicate" sample_data _ _ in
          conj (proj1 H) (proj1 (proj2 H))).
  - intros r Hin. simpl in Hin.
    repeat (destruct Hin as [<-|Hin]; [vm_compute; reflexivity|]).
    destruct Hin.
  - repeat constructor; eexists; (split; [reflexivity|vm_compute; reflexivity]).
Defined.

(** C2, as stated, fails: the test of the scan is containment, not
    equality.  With a record identified by T1083.001 before the record
    identified by T1083, the lookup of T1083 returns the former. *)
Lemma C2_counterexample :
  let objects := [technique_record "T1083.001" "Sub-technique" "First.";
                  technique_record "T1083" "Technique" "Second."] in
  exists it objects',
    resolve "T1083" objects = inr (InData 0, objects')
    /\ objects !! 0 = Some it
    /\ primary_id it = inr "T1083.001"
    /\ "T1083.001" <> "T1083"
    /\ name <$> objects' !! 0 = Some (Some "Sub-technique").
Proof.
  eexists _, _. split; [vm_compute; reflexivity|].
  repeat split. discriminate.
Qed.

(** C2, amended.  The lookup returns the first record of the dataset
    whose primary external identifier (the identifier of the first of its
    external references, or the empty text when the record has no such
    list or the reference no identifier) contains the technique id as a
    substring: no record before it does.  The record is returned in
    place, with its name and description, and with the fallback for its
    solutions.  When no record qualifies the default record is
    returned. *)
Theorem C2_first_containing (technique : string) (objects : store)
  (r : ref) (objects' : store) :
  resolve technique objects = inr (r, objects') ->
  match r with
  | InData i =>
      exists it pid,
        objects !! i = Some it
        /\ primary_id it = inr pid
        /\ substring_of technique pid
        /\ (forall k it', k < i -> objects !! k = Some it' ->
              exists pid', primary_id it' = inr pid'
                           /\ ~ substring_of technique pid')
        /\ objects' !! i = Some (norm it)
        /\ name (norm it) = name it
        /\ description (norm it) = description it
  | Fresh d =>
      d = placeholder
      /\ forall it, In it objects ->
           exists pid', primary_id it = inr pid'
                        /\ ~ substring_of technique pid'
  end.
Proof.
  rewrite resolve_norm.
  destruct (first_match technique objects) as [e|[[i it]|]] eqn:Hf;
    intros H; inversion H; subst; clear H.
  - apply first_match_Some in Hf as (Hi & (pid & Hpid & Hc) & Hbefore).
    exists it, pid. split; [exact Hi|]. split; [exact Hpid|].
    split; [apply contains_substring, Hc|]. split.
    + intros k it' Hk Hlook.
      destruct (Hbefore k it' Hk Hlook) as (pid' & Hp & Hn).
      exists pid'. split; [exact Hp|]. apply not_contains_substring, Hn.
    + split.
      * apply list_lookup_insert_eq. eapply lookup_lt_Some, Hi.
      * unfold norm. destruct (falsy (solutions it)); auto.
  - split; [reflexivity|]. intros it Hin.
    apply first_match_None in Hf. rewrite Forall_forall in Hf.
    destruct (Hf it) as (pid' & Hp & Hn).
    { apply list_elem_of_In, Hin. }
    exists pid'. split; [exact Hp|]. apply not_contains_substring, Hn.
Qed.

Lemma C2_first_containing_witness :
  exists it pid,
    sample_data !! 1 = Some it
    /\ primary_id it = inr pid
    /\ substring_of "T1078" pid.
Proof.
  destruct (C2_first_containing "T1078" sample_data (InData 1)
              (<[1 := norm (technique_record "T1078" "Valid Accounts"
                 "Adversaries may obtain and abuse credentials of existing accounts.")]>
                 sample_data) eq_refl)
    as (it & pid & H1 & H2 & H3 & _).
  exists it, pid. auto.
Defined.




(** C10, as stated, fails: the scan stops at the first record that
    passes the test, so a record with an empty list of external
    references that comes after it is never read.  Here the lookup and
    the analysis both return. *)
Lemma C10_counterexample :
  let objects := [technique_record "T1083" "Discovery" "Listing files.";
                  {| external_references := Some [];
                     name := Some "Broken"; description := None;
                     solutions := None |}] in
  (exists objects', resolve "T1083" objects = inr (InData 0, objects'))
  /\ (exists res objects',
         analyze_bash_history "cd /tmp" objects = inr (res, objects')).
Proof.
  split.
  - eexists. vm_compute. reflexivity.
  - eexists _, _. vm_compute. reflexivity.
Qed.

(** C10, amended.  When a record with an empty list of external
    references comes before every record that passes the test (in
    particular when no record passes it, and the id would get the default
    record), the lookup raises IndexError, and so does the analysis of
    every log with a command classified under that id.  When a record
    before it passes the test, the lookup returns that record. *)
Theorem C10_empty_references (technique : string) (pre post : list item)
  (it : item) :
  external_references it = Some [] ->
  (Forall (no_match technique) pre ->
     resolve technique (pre ++ it :: post) = inl IndexError
     /\ forall text c,
          In c (segments text) -> In technique (classify c) ->
          analyze_bash_history text (pre ++ it :: post) = inl IndexError)
  /\ (forall i found,
        first_match technique pre = inr (Some (i, found)) ->
        resolve technique (pre ++ it :: post)
        = inr (InData i, <[i := norm found]> (pre ++ it :: post))).
Proof.
  intros Hit.
  assert (Hbad : Forall (no_match technique) pre ->
                 first_match technique (pre ++ it :: post) = inl IndexError).
  { intros Hpre. apply first_match_None in Hpre.
    rewrite first_match_app, Hpre. simpl. unfold primary_id.
    rewrite Hit. reflexivity. }
  split.
  - intros Hpre. specialize (Hbad Hpre). split.
    + rewrite resolve_norm, Hbad. reflexivity.
    + intros text c Hc Ht. rewrite analyze_segments.
      apply (for_each_abort technique); eauto.
  - intros i found Hf. rewrite resolve_norm, first_match_app, Hf.
    reflexivity.
Qed.

Lemma C10_empty_references_witness :
  let broken := {| external_references := Some [];
                   name := Some "Broken"; description := None;
                   solutions := None |} in
  resolve "T1059" (sample_data ++ broken :: []) = inl IndexError
  /\ analyze_bash_history "ls; history" (sample_data ++ broken :: [])
     = inl IndexError.
Proof.
  intros broken.
  destruct (C10_empty_references "T1059" sample_data [] broken eq_refl)
    as [Hraise _].
  destruct Hraise as [H1 H2].
  - repeat constructor; eexists; (split; [reflexivity|vm_compute; reflexivity]).
  - split; [exact H1|]. apply (H2 "ls; history" " history").
    + vm_compute. auto.
    + vm_compute. auto.
Defined.

(** ** Records that have solutions *)

Section Settled.

Lemma settled_truthy st r :
  settled st r <-> exists d, deref st r = Some d /\ falsy (solutions d) = false.
Proof.
  split.
  - intros (d & s & rest & Hd & Hs). exists d. rewrite Hs. auto.
  - intros (d & Hd & Hf). destruct (solutions d) as [[|s rest]|] eqn:Hs;
      try discriminate. exists d, s, rest. auto.
Qed.

Lemma settled_advances st u r :
  advances st u -> settled st r -> settled u r.
Proof.
  intros Hadv. rewrite !settled_truthy. intros (d & Hd & Hf). exists d.
  split; [|exact Hf]. destruct r as [i|d0]; simpl in *; [|exact Hd].
  eapply advances_truthy; eauto.
Qed.

Lemma resolve_settled technique st r st' :
  resolve technique st = inr (r, st') -> settled st' r.
Proof.
  rewrite resolve_norm, settled_truthy.
  destruct (first_match technique st) as [e|[[i it]|]] eqn:Hf; intros H;
    inversion H; subst.
  - apply first_match_Some in Hf as (Hi & _). exists (norm it).
    split; [|apply falsy_norm]. simpl.
    apply list_lookup_insert_eq. eapply lookup_lt_Some, Hi.
  - exists placeholder. auto.
Qed.

Lemma resolve_all_settled techniques st l st' :
  resolve_all techniques st = inr (l, st') -> Forall (settled st') l.
Proof.
  revert st l st'. induction techniques as [|t ts IH]; intros st l st' H;
    simpl in H.
  - inversion H. constructor.
  - unfold bind, ret in H.
    destruct (resolve t st) as [e|[r st1]] eqn:E1; [discriminate|].
    destruct (resolve_all ts st1) as [e|[rest st2]] eqn:E2; [discriminate|].
    inversion H; subst. constructor; [|eapply IH, E2].
    eapply settled_advances; [|eapply resolve_settled, E1].
    eapply (stable_resolve_all ts), E2.
Qed.

Lemma for_each_settled segs acc st res st' :
  Forall (fun e => Forall (settled st) (techniques e)) acc ->
  for_each segs analyze_command acc st = inr (res, st') ->
  Forall (fun e => Forall (settled st') (techniques e)) res.
Proof.
  revert acc st. induction segs as [|c segs IH]; intros acc st Hacc H;
    simpl in H.
  - inversion H; subst. exact Hacc.
  - unfold bind in H.
    destruct (analyze_command c acc st) as [e|[acc1 st1]] eqn:E;
      [discriminate|].
    apply (IH acc1 st1); [|exact H].
    pose proof (proj1 (stable_analyze_command _ _ _ _ _ E)) as Hadv.
    apply analyze_command_inv in E as (l & Hl & _ & ->).
    assert (Hacc1 : Forall (fun e => Forall (settled st1) (techniques e)) acc).
    { eapply Forall_impl; [exact Hacc|]. intros e He. simpl in He.
      eapply Forall_impl; [exact He|].
      intros r. apply settled_advances, Hadv. }
    destruct (is_nil l); [exact Hacc1|].
    apply Forall_app. split; [exact Hacc1|].
    constructor; [|constructor]. simpl.
    eapply resolve_all_settled, Hl.
Qed.

Lemma analyze_settled text st res st' :
  analyze_bash_history text st = inr (res, st') ->
  Forall (fun e => Forall (settled st') (techniques e)) res.
Proof.
  rewrite analyze_segments. apply for_each_settled. constructor.
Qed.

Lemma advances_all_truthy st u :
  Forall (fun it => falsy (solutions it) = false) st ->
  advances st u -> u = st.
Proof.
  intros Hall Hadv. induction Hadv as [|a b st u Hab _ IH].
  - reflexivity.
  - apply Forall_cons in Hall as [Ha Hall]. rewrite (IH Hall).
    destruct Hab as [->| ->]; [reflexivity|].
    rewrite (norm_truthy _ Ha). reflexivity.
Qed.

Lemma classify_length command : length (classify command) <= 2.
Proof.
  unfold classify.
  repeat match goal with
         | |- context [re_search ?p ?s] => destruct (re_search p s)
         end; simpl; lia.
Qed.

End Settled.

(** * The claims about the analyzer *)

(** C3, as stated, fails: a run writes the fallback for the solutions
    into the records of the dataset it returns.  After the analysis of
    one [cd] command the first record of the sample dataset, which had
    no solutions, has its description as solutions. *)
Lemma C3_counterexample :
  exists res objects',
    analyze_bash_history "cd /tmp" sample_data = inr (res, objects')
    /\ objects' <> sample_data
    /\ solutions <$> sample_data !! 0 = Some None
    /\ solutions <$> objects' !! 0
       = Some (Some ["Adversaries may enumerate files and directories."]).
Proof.
  eexists _, _. split; [vm_compute; reflexivity|].
  split; [discriminate|]. split; reflexivity.
Qed.

(** C3, amended.  A second run on the same log and the same dataset, as
    the first run left it, returns the same results, which refer to the
    same records with the same content, and changes nothing.  A run does
    write to the dataset: every record its results refer to whose
    solutions were absent or empty gets its description (or "No
    description available.") as its one solution.  The number of records
    is kept, and every other record, one that has solutions or one that
    no result refers to, is left as it was. *)
Theorem C3_second_run (text : string) (objects : store)
  (res : list entry) (objects' : store) :
  analyze_bash_history text objects = inr (res, objects') ->
  analyze_bash_history text objects' = inr (res, objects')
  /\ length objects' = length objects
  /\ forall i it,
       objects !! i = Some it ->
       ((exists e, In e res /\ In (InData i) (techniques e)) ->
        falsy (solutions it) = true ->
        objects' !! i
        = Some (with_solutions (description_as_solutions it) it))
       /\ (falsy (solutions it) = false -> objects' !! i = Some it)
       /\ (~ (exists e, In e res /\ In (InData i) (techniques e)) ->
           objects' !! i = Some it)
       /\ (objects' !! i = Some it
           \/ ((exists e, In e res /\ In (InData i) (techniques e))
               /\ falsy (solutions it) = true
               /\ objects' !! i
                  = Some (with_solutions (description_as_solutions it) it))).
Proof.
  intros H. destruct (stable_analyze text _ _ _ H) as [Hadv Hagain].
  split; [apply Hagain, advances_refl|].
  split; [apply advances_length, Hadv|].
  intros i it Hi.
  destruct (advances_lookup _ _ _ _ Hadv Hi) as (b & Hb & Hrel).
  pose proof (analyze_settled _ _ _ _ H) as Hset.
  rewrite analyze_segments in H.
  pose proof (for_each_frame _ _ _ _ _ i H) as Hframe.
  assert (Hwritten :
            (exists e, In e res /\ In (InData i) (techniques e)) ->
            falsy (solutions it) = true ->
            objects' !! i
            = Some (with_solutions (description_as_solutions it) it)).
  { intros (e & He & Hin) Hf.
    rewrite Forall_forall in Hset.
    specialize (Hset e (proj2 (list_elem_of_In _ _) He)). simpl in Hset.
    rewrite Forall_forall in Hset.
    specialize (Hset _ (proj2 (list_elem_of_In _ _) Hin)).
    apply settled_truthy in Hset as (d & Hd & Hdt). simpl in Hd.
    assert (d = b) as -> by congruence.
    destruct Hrel as [->| ->]; [congruence|].
    rewrite Hb. unfold norm. rewrite Hf. reflexivity. }
  assert (Hkept : falsy (solutions it) = false -> objects' !! i = Some it).
  { intros Hf. eapply advances_truthy; eauto. }
  split; [exact Hwritten|]. split; [exact Hkept|]. split.
  - intros Hnot. destruct Hframe as [Hsame|(e & new & Hres & He & Hin)].
    + congruence.
    + exfalso. apply Hnot. exists e. split; [|exact Hin].
      rewrite Hres. simpl. exact He.
  - destruct Hframe as [Hsame|(e & new & Hres & He & Hin)];
      [left; congruence|].
    destruct (falsy (solutions it)) eqn:Hf; [|left; auto].
    assert (Href : exists e, In e res /\ In (InData i) (techniques e)).
    { exists e. split; [|exact Hin]. rewrite Hres. simpl. exact He. }
    right. auto.
Qed.

Lemma C3_second_run_witness :
  let first := analyze_bash_history "cd /tmp; whoami" sample_data in
  exists res objects',
    first = inr (res, objects')
    /\ analyze_bash_history "cd /tmp; whoami" objects' = inr (res, objects')
    /\ solutions <$> objects' !! 1
       = Some (Some ["Adversaries may obtain and abuse credentials of existing accounts."])
    /\ objects' !! 2 = sample_data !! 2.
Proof.
  intros first.
  destruct first as [e|[res objects']] eqn:E.
  - vm_compute in E. discriminate.
  - exists res, objects'. split; [reflexivity|].
    destruct (C3_second_run "cd /tmp; whoami" sample_data res objects' E)
      as (Hagain & _ & Hrec).
    split; [exact Hagain|]. split.
    + destruct (Hrec 1 _ eq_refl) as (Hwritten & _).
      rewrite Hwritten; [reflexivity| |reflexivity].
      vm_compute in E. injection E as <- _.
      eexists. split; [right; left; reflexivity|left; reflexivity].
    + destruct (Hrec 2 _ eq_refl) as (_ & _ & Hfree & _).
      apply Hfree. vm_compute in E. injection E as <- _.
      intros (e & [<-|[<-|[]]] & [Hin|[]]); discriminate Hin.
Defined.

(** C4, as stated, fails: an entry stores the piece of the line as
    [split] gave it, and only the line as a whole was trimmed.  The
    second command of this log is stored with its leading blank. *)
Lemma C4_counterexample :
  exists res objects',
    analyze_bash_history "cd /tmp; whoami" [] = inr (res, objects')
    /\ map command res = ["cd /tmp"; " whoami"]
    /\ map Str.strip (segments "cd /tmp; whoami") = ["cd /tmp"; "whoami"]
    /\ map command res <> map Str.strip (segments "cd /tmp; whoami").
Proof.
  eexists _, _. split; [vm_compute; reflexivity|].
  split; [reflexivity|]. split; [vm_compute; reflexivity|].
  vm_compute. discriminate.
Qed.

(** C4, amended.  The commands stored in the entries are, in order, the
    pieces between semicolons of the trimmed lines of the log whose
    classification is not empty, each exactly as the split left it: the
    blanks next to an inner semicolon are kept. *)
Theorem C4_stored_command (text : string) (objects : store)
  (res : list entry) (objects' : store) :
  analyze_bash_history text objects = inr (res, objects') ->
  map command res
  = List.filter keeps
      (flat_map (fun line => Str.split Char.semicolon (Str.strip line))
         (Str.readlines text)).
Proof.
  intros H. apply (analyze_commands _ _ _ _ H).
Qed.

Lemma C4_stored_command_witness :
  exists res objects',
    analyze_bash_history "cd /tmp ; clear; whoami" sample_data
    = inr (res, objects')
    /\ map command res = ["cd /tmp "; " whoami"].
Proof.
  destruct (analyze_bash_history "cd /tmp ; clear; whoami" sample_data)
    as [e|[res objects']] eqn:E.
  - vm_compute in E. discriminate.
  - exists res, objects'. split; [reflexivity|].
    rewrite (C4_stored_command _ _ _ _ E). vm_compute. reflexivity.
Defined.

(** C6.  [clear] between any blanks is classified as nothing and gets
    no technique record.  The log line [cd /tmp; clear; whoami], with or
    without its newline, gives on every dataset the scan can read a
    result, and every result it gives has exactly two entries: the one
    of [cd /tmp], then the one of the [whoami] command, each with one
    technique record. *)
Theorem C6_clear_omitted (ws1 ws2 text : string) (objects : store) :
  Str.allspace ws1 = true -> Str.allspace ws2 = true ->
  text = "cd /tmp; clear; whoami"
  \/ text = ("cd /tmp; clear; whoami" ++ String Char.newline "")%string ->
  classify (ws1 ++ "clear" ++ ws2) = []
  /\ map_command_to_mitre (ws1 ++ "clear" ++ ws2) objects = inr ([], objects)
  /\ (Forall well_formed objects ->
      exists res objects',
        analyze_bash_history text objects = inr (res, objects'))
  /\ forall res objects',
       analyze_bash_history text objects = inr (res, objects') ->
       exists e1 e2,
         res = [e1; e2]
         /\ command e1 = "cd /tmp" /\ command e2 = " whoami"
         /\ classify (command e1) = ["T1083"]
         /\ classify (command e2) = ["T1078"]
         /\ length (techniques e1) = 1 /\ length (techniques e2) = 1.
Proof.
  intros H1 H2 Htext.
  pose proof (classify_clear ws1 ws2 H1 H2) as Hclear.
  split; [exact Hclear|].
  split; [unfold map_command_to_mitre; rewrite Hclear; reflexivity|].
  split; [apply analyze_returns|].
  intros res objects' H. apply analyze_entries in H.
  assert (Hsegs : List.filter keeps (segments text) = ["cd /tmp"; " whoami"]).
  { destruct Htext as [->| ->]; vm_compute; reflexivity. }
  rewrite Hsegs in H.
  inversion H as [|c1 e1 cs1 es1 He1 Hrest]; subst.
  inversion Hrest as [|c2 e2 cs2 es2 He2 Hnil]; subst.
  inversion Hnil; subst.
  exists e1, e2. destruct He1 as [Hc1 (s1 & s1' & Hm1)].
  destruct He2 as [Hc2 (s2 & s2' & Hm2)].
  apply resolve_all_length in Hm1, Hm2.
  rewrite Hc1, Hc2, Hm1, Hm2. repeat split; vm_compute; reflexivity.
Qed.

Lemma C6_clear_omitted_witness :
  classify "  clear	 " = []
  /\ exists res objects',
       analyze_bash_history "cd /tmp; clear; whoami" sample_data
       = inr (res, objects')
       /\ map command res = ["cd /tmp"; " whoami"].
Proof.
  destruct (C6_clear_omitted "  " "	 " "cd /tmp; clear; whoami" sample_data
              eq_refl eq_refl (or_introl eq_refl))
    as (Hc & _ & Hret & Hshape).
  split; [exact Hc|].
  destruct (Hret sample_data_well_formed) as (res & objects' & Hrun).
  exists res, objects'. split; [exact Hrun|].
  destruct (Hshape _ _ Hrun) as (e1 & e2 & -> & Hc1 & Hc2 & _).
  simpl. rewrite Hc1, Hc2. reflexivity.
Defined.

(** C8.  A piece of a line that is empty or all blanks is not filtered
    out: it is classified as the sentinel alone; on every dataset the
    scan can read the analysis returns, and every result the analysis
    returns has, after the entries of the pieces before it, an entry
    for that piece, with the piece as its command and, as its only
    technique record, what the sentinel resolved to. *)
Theorem C8_blank_command (text : string) (objects : store)
  (pre post : list string) (c : string) :
  segments text = pre ++ c :: post ->
  Str.allspace c = true ->
  classify c = ["Unknown"]
  /\ (Forall well_formed objects ->
      exists res objects',
        analyze_bash_history text objects = inr (res, objects'))
  /\ forall res objects',
       analyze_bash_history text objects = inr (res, objects') ->
       exists rpre e rpost,
         res = rpre ++ e :: rpost
         /\ map command rpre = List.filter keeps pre
         /\ command e = c
         /\ exists r st st',
              techniques e = [r]
              /\ resolve "Unknown" st = inr (r, st').
Proof.
  intros Hsegs Hblank. pose proof (classify_blank c Hblank) as Hc.
  split; [exact Hc|]. split; [apply analyze_returns|].
  intros res objects' H. apply analyze_entries in H.
  rewrite Hsegs, List.filter_app in H. simpl in H.
  unfold keeps at 2 in H. rewrite Hc in H. simpl in H.
  apply Forall2_app_inv_l in H as (rpre & rest & Hpre & Hrest & ->).
  inversion Hrest as [|c' e cs rpost He Hpost]; subst.
  exists rpre, e, rpost. split; [reflexivity|].
  split; [apply entry_of_commands, Hpre|].
  destruct He as [Hcmd (st & st' & Hm)]. split; [exact Hcmd|].
  unfold map_command_to_mitre in Hm. rewrite Hc in Hm. simpl in Hm.
  unfold bind, ret in Hm.
  destruct (resolve "Unknown" st) as [x|[r st1]] eqn:Hr; [discriminate|].
  injection Hm as Ht _. exists r, st, st1. auto.
Qed.

Lemma C8_blank_command_witness :
  classify " " = ["Unknown"]
  /\ exists res objects',
       analyze_bash_history "ls; ;whoami;" sample_data = inr (res, objects')
       /\ map command res = ["ls"; " "; "whoami"; ""].
Proof.
  destruct (C8_blank_command "ls; ;whoami;" sample_data
              ["ls"] ["whoami"; ""] " " eq_refl eq_refl)
    as (Hc & Hret & _).
  split; [exact Hc|].
  destruct (Hret sample_data_well_formed) as (res & objects' & Hrun).
  exists res, objects'. split; [exact Hrun|].
  rewrite (analyze_commands _ _ _ _ Hrun). vm_compute. reflexivity.
Defined.

(** * Further properties of the classifier *)

Section Verbs.

Lemma startswith_head w x :
  nonblank_head w = true -> Str.startswith w x = true ->
  Str.lstrip x = x.
Proof.
  destruct w as [|a w]; [discriminate|]. destruct x as [|b x]; [reflexivity|].
  simpl. intros Ha [Hab _]%andb_true_iff. apply Ascii.eqb_eq in Hab.
  subst b. apply negb_true_iff in Ha. rewrite Ha. reflexivity.
Qed.

(** What matches after the leading blanks matches the text without
    them, when it cannot start with a blank. *)
Lemma star_space_lstrip (k : cont) (q : string -> bool) :
  (forall p x, k p x = true -> q x = true /\ Str.lstrip x = x) ->
  forall p s, star_k Space k p s = true -> q (Str.lstrip s) = true.
Proof.
  intros Hk p s. revert p. induction s as [|c s IH]; intros p H.
  - simpl in H. rewrite orb_false_r in H. apply Hk in H as [Hq _]. exact Hq.
  - cbn [star_k] in H. apply orb_true_iff in H as [H|H].
    + apply Hk in H as [Hq Hl]. rewrite Hl. exact Hq.
    + apply andb_true_iff in H as [Hc H]. simpl in Hc. simpl. rewrite Hc.
      eapply IH, H.
Qed.

Lemma search_begins r s :
  pattern_verbs r <> [] ->
  forallb nonblank_head (pattern_verbs r) = true ->
  search r s = true ->
  begins (pattern_verbs r) (Str.lstrip s) = true.
Proof.
  destruct r as [| | | | | | | |r1 r2| |]; try (intros H; contradiction).
  destruct r1; try (intros H; contradiction).
  destruct r2 as [| | | | | | | |r2 r3| |]; try (intros H; contradiction).
  destruct r2 as [| | | | | |[]| | | |]; try (intros H; contradiction).
  destruct r3 as [| | | | | | | |v rest| |]; try (intros H; contradiction).
  destruct v as [| | | |w| | | | |v1 v2|]; try (intros H; contradiction).
  - intros _ Hnb. cbn [pattern_verbs forallb] in *. rewrite andb_true_r in Hnb.
    rewrite search_bol. cbn [matchk].
    apply star_space_lstrip. intros p x Hx.
    pose proof (lit_k_startswith _ _ _ _ Hx) as Hs.
    split; [|exact (startswith_head _ _ Hnb Hs)].
    unfold begins. simpl. rewrite Hs. reflexivity.
  - destruct v1 as [| | | |w1| | | | | |]; try (intros H; contradiction).
    destruct v2 as [| | | |w2| | | | | |]; try (intros H; contradiction).
    intros _ Hnb. cbn [pattern_verbs forallb] in *.
    apply andb_true_iff in Hnb as [Hn1 Hn2]. rewrite andb_true_r in Hn2.
    rewrite search_bol. cbn [matchk].
    apply star_space_lstrip. intros p x Hx.
    apply orb_true_iff in Hx as [Hx|Hx];
      pose proof (lit_k_startswith _ _ _ _ Hx) as Hs.
    + split; [|exact (startswith_head _ _ Hn1 Hs)].
      unfold begins. simpl. rewrite Hs. reflexivity.
    + split; [|exact (startswith_head _ _ Hn2 Hs)].
      unfold begins. simpl. rewrite Hs. apply orb_true_iff. right. reflexivity.
Qed.

(** A rule only matches a text that, after its leading blanks, starts
    with one of the verbs of the rule. *)
Lemma matches_begins r s :
  In r rule_table -> matches r s = true ->
  begins (rule_verbs r) (Str.lstrip s) = true.
Proof.
  intros Hin. simpl in Hin.
  repeat (destruct Hin as [<-|Hin];
          [unfold matches, re_search, rule_verbs; cbn [pattern];
           match goal with
           | |- context [parse ?x] =>
               let v := eval vm_compute in (parse x) in
               change (parse x) with v
           end;
           apply search_begins; [discriminate|reflexivity]|]).
  destruct Hin.
Qed.

(** Two words that start the same text: one starts the other. *)
Lemma startswith_comparable a b x :
  Str.startswith a x = true -> Str.startswith b x = true ->
  Str.startswith a b = true \/ Str.startswith b a = true.
Proof.
  revert b x. induction a as [|c a IH]; intros b x Ha Hb.
  - left. reflexivity.
  - destruct b as [|d b]; [right; reflexivity|].
    destruct x as [|e x]; [discriminate|]. simpl in *.
    apply andb_true_iff in Ha as [Hce Ha]. apply andb_true_iff in Hb as [Hde Hb].
    apply Ascii.eqb_eq in Hce, Hde. subst c d. rewrite Ascii.eqb_refl. simpl.
    eapply IH; eauto.
Qed.

Lemma begins_In verbs x :
  begins verbs x = true -> exists w, In w verbs /\ Str.startswith w x = true.
Proof.
  unfold begins. intros (w & Hin & Hw)%existsb_exists. eauto.
Qed.

Lemma rule_of_pattern_In r :
  In r rule_table -> rule_of_pattern (pattern r) = Some r.
Proof.
  intros Hin. simpl in Hin.
  repeat (destruct Hin as [<-|Hin]; [reflexivity|]). destruct Hin.
Qed.

(** No verb of a rule starts a verb of another rule. *)
Lemma verbs_prefix_free r1 r2 w1 w2 :
  In r1 rule_table -> In r2 rule_table ->
  In w1 (rule_verbs r1) -> In w2 (rule_verbs r2) ->
  Str.startswith w1 w2 = true -> r1 = r2.
Proof.
  intros H1 H2 Hw1 Hw2 Hs.
  assert (Hcheck : prefix_free_table = true) by (vm_compute; reflexivity).
  unfold prefix_free_table in Hcheck.
  rewrite forallb_forall in Hcheck. specialize (Hcheck r1 H1).
  rewrite forallb_forall in Hcheck. specialize (Hcheck r2 H2).
  rewrite forallb_forall in Hcheck. specialize (Hcheck w1 Hw1).
  rewrite forallb_forall in Hcheck. specialize (Hcheck w2 Hw2).
  rewrite Hs in Hcheck. simpl in Hcheck. apply String.eqb_eq in Hcheck.
  pose proof (rule_of_pattern_In r1 H1) as E1.
  pose proof (rule_of_pattern_In r2 H2) as E2.
  rewrite Hcheck in E1. congruence.
Qed.

Lemma rules_exclusive s r1 r2 :
  In r1 rule_table -> In r2 rule_table ->
  matches r1 s = true -> matches r2 s = true -> r1 = r2.
Proof.
  intros H1 H2 M1 M2.
  apply (matches_begins _ _ H1), begins_In in M1 as (w1 & Hw1 & S1).
  apply (matches_begins _ _ H2), begins_In in M2 as (w2 & Hw2 & S2).
  destruct (startswith_comparable _ _ _ S1 S2) as [Hp|Hp].
  - eapply verbs_prefix_free; eauto.
  - symmetry. eapply verbs_prefix_free; eauto.
Qed.

End Verbs.

Section Order.

Lemma first_match_wins_unique rules s r :
  In r rules -> matches r s = true ->
  (forall r', In r' rules -> matches r' s = true -> r' = r) ->
  first_match_wins rules s = emitted (result r) s.
Proof.
  induction rules as [|r0 rules IH]; intros Hin Hr Huniq; [destruct Hin|].
  simpl. destruct (matches r0 s) eqn:E0.
  - rewrite (Huniq r0 (or_introl eq_refl) E0). reflexivity.
  - destruct Hin as [->|Hin]; [congruence|].
    apply IH; [exact Hin|exact Hr|].
    intros r' Hin' Hr'. apply Huniq; [right; exact Hin'|exact Hr'].
Qed.

Lemma first_match_wins_permutation rules s :
  Permutation rule_table rules ->
  first_match_wins rules s = first_match_wins rule_table s.
Proof.
  intros Hperm.
  destruct (existsb (fun r => matches r s) rule_table) eqn:E.
  - apply existsb_exists in E as (r & Hin & Hr).
    rewrite (first_match_wins_unique rule_table s r Hin Hr)
      by (intros r' Hin' Hr'; eapply rules_exclusive; eauto).
    apply first_match_wins_unique.
    + eapply Permutation_in; eauto.
    + exact Hr.
    + intros r' Hin' Hr'. eapply rules_exclusive; eauto.
      eapply Permutation_in; [symmetry; exact Hperm|exact Hin'].
  - assert (Hnone : forall r, In r rule_table -> matches r s = false).
    { intros r Hin. destruct (matches r s) eqn:Hr; [|reflexivity].
      assert (existsb (fun r => matches r s) rule_table = true)
        by (apply existsb_exists; eauto).
      congruence. }
    rewrite (first_match_wins_none rule_table s Hnone).
    apply first_match_wins_none. intros r Hin. apply Hnone.
    eapply Permutation_in; [symmetry; exact Hperm|exact Hin].
Qed.

End Order.

(** X1.  The rules exclude one another: whatever the text, at most one
    rule of the table matches it. *)
Theorem X1_rules_exclusive (s : string) (r1 r2 : rule) :
  In r1 rule_table -> In r2 rule_table ->
  matches r1 s = true -> matches r2 s = true -> r1 = r2.
Proof. apply rules_exclusive. Qed.

Lemma X1_rules_exclusive_witness :
  {| pattern := "^\s*(netstat|ss)(\s+.*)?$"; result := Emit ["T1049"] |}
  = nth 11 rule_table {| pattern := ""; result := Emit [] |}.
Proof.
  apply (X1_rules_exclusive "  ss -tlnp").
  - vm_compute. tauto.
  - vm_compute. tauto.
  - vm_compute. reflexivity.
  - vm_compute. reflexivity.
Defined.

(** X2.  No rule is shadowed by the rules tried before it: whenever the
    predicate of a rule matches the trimmed command, the classification
    is the outcome of that rule. *)
Theorem X2_no_rule_shadowed (command : string) (r : rule) :
  In r rule_table ->
  matches r (Str.strip command) = true ->
  classify command = emitted (result r) (Str.strip command).
Proof.
  intros Hin Hr. rewrite classify_table.
  apply first_match_wins_unique; [exact Hin|exact Hr|].
  intros r' Hin' Hr'. eapply rules_exclusive; eauto.
Qed.

Lemma X2_no_rule_shadowed_witness :
  classify "traceroute -n 10.0.0.1" = ["T1069"].
Proof.
  apply (X2_no_rule_shadowed "traceroute -n 10.0.0.1"
           {| pattern := "^\s*(traceroute|ping)\s+.*$";
              result := Emit ["T1069"] |}).
  - vm_compute. tauto.
  - vm_compute. reflexivity.
Defined.

(** X3.  The order of the rules is not observable: the table taken in
    any other order, evaluated first match first, classifies every
    command as the program does. *)
Theorem X3_order_irrelevant (command : string) (rules : list rule) :
  Permutation rule_table rules ->
  first_match_wins rules (Str.strip command) = classify command.
Proof.
  intros Hperm. rewrite classify_table.
  apply first_match_wins_permutation, Hperm.
Qed.

Lemma X3_order_irrelevant_witness :
  first_match_wins (rev rule_table) (Str.strip " sudo cat /etc/passwd")
  = classify " sudo cat /etc/passwd".
Proof.
  apply (X3_order_irrelevant " sudo cat /etc/passwd" (rev rule_table)).
  apply Permutation_rev.
Defined.

(** * Further properties of the trimming *)

Section Trimming.

Lemma allspace_app a b :
  Str.allspace (a ++ b) = Str.allspace a && Str.allspace b.
Proof.
  induction a as [|c a IH]; simpl; [reflexivity|].
  rewrite IH. apply andb_assoc.
Qed.

Lemma lstrip_nonblank s :
  Str.lstrip s = "" \/ nonblank_head (Str.lstrip s) = true.
Proof.
  induction s as [|c s IH]; simpl; [left; reflexivity|].
  destruct (Char.isspace c) eqn:Hc; [exact IH|].
  right. simpl. rewrite Hc. reflexivity.
Qed.

Lemma rstrip_rstrip s : Str.rstrip (Str.rstrip s) = Str.rstrip s.
Proof.
  induction s as [|c s IH]; simpl; [reflexivity|].
  destruct (Char.isspace c && Str.is_empty (Str.rstrip s)) eqn:E;
    [reflexivity|].
  simpl. rewrite IH, E. reflexivity.
Qed.

Lemma lstrip_rstrip_nonblank x :
  nonblank_head x = true -> Str.lstrip (Str.rstrip x) = Str.rstrip x.
Proof.
  destruct x as [|c x]; [discriminate|]. simpl.
  intros Hc%negb_true_iff. rewrite Hc. simpl. rewrite Hc. reflexivity.
Qed.

(** What [strip] returns it leaves as it is. *)
Lemma strip_strip s : Str.strip (Str.strip s) = Str.strip s.
Proof.
  unfold Str.strip. destruct (lstrip_nonblank s) as [H|H].
  - rewrite H. reflexivity.
  - rewrite (lstrip_rstrip_nonblank _ H). apply rstrip_rstrip.
Qed.

Lemma lstrip_app_nonblank c w :
  Str.allspace c = false -> Str.lstrip (c ++ w) = (Str.lstrip c ++ w)%string.
Proof.
  induction c as [|a c IH]; simpl; [discriminate|].
  destruct (Char.isspace a); simpl; [exact IH|reflexivity].
Qed.

(** Blanks around a text do not change what [strip] returns. *)
Lemma strip_padding ws1 c ws2 :
  Str.allspace ws1 = true -> Str.allspace ws2 = true ->
  Str.strip (ws1 ++ c ++ ws2) = Str.strip c.
Proof.
  intros H1 H2. unfold Str.strip. rewrite lstrip_app by assumption.
  destruct (Str.allspace c) eqn:Hc.
  - rewrite (lstrip_allspace c Hc).
    rewrite lstrip_allspace by (rewrite allspace_app, Hc, H2; reflexivity).
    reflexivity.
  - rewrite (lstrip_app_nonblank c ws2 Hc). apply rstrip_app, H2.
Qed.

Lemma strip_no_padding s ws1 w ws2 :
  Str.strip s = (ws1 ++ w ++ ws2)%string ->
  Str.allspace ws1 = true -> Str.allspace ws2 = true ->
  Str.strip s = Str.strip w.
Proof.
  intros Hs H1 H2. rewrite <- (strip_strip s), Hs.
  apply strip_padding; assumption.
Qed.

End Trimming.

Section Decompose.

Lemma star_space_inv (k : cont) p s :
  star_k Space k p s = true ->
  exists ws t p', s = (ws ++ t)%string /\ Str.allspace ws = true
                  /\ k p' t = true.
Proof.
  revert p. induction s as [|c s IH]; intros p H; cbn [star_k] in H.
  - rewrite orb_false_r in H. exists "", "", p. auto.
  - apply orb_true_iff in H as [H|H].
    + exists "", (String c s), p. auto.
    + apply andb_true_iff in H as [Hc H]. simpl in Hc.
      destruct (IH _ H) as (ws & t & p' & -> & Hws & Hk).
      exists (String c ws), t, p'. simpl. rewrite Hc, Hws. auto.
Qed.

Lemma lit_k_inv w (k : cont) p s :
  lit_k w k p s = true ->
  exists t p', s = (w ++ t)%string /\ k p' t = true.
Proof.
  revert p s. induction w as [|a w IH]; intros p s H; simpl in H.
  - exists s, p. auto.
  - destruct s as [|b s]; [discriminate|].
    apply andb_true_iff in H as [Hab H]. apply Ascii.eqb_eq in Hab. subst b.
    destruct (IH _ _ H) as (t & p' & -> & Hk). exists t, p'. auto.
Qed.

Lemma at_eol_allspace t : at_eol t = true -> Str.allspace t = true.
Proof.
  destruct t as [|c [|d t]]; simpl; try discriminate; [reflexivity|].
  intros H. apply Ascii.eqb_eq in H. subst c. reflexivity.
Qed.

(** The [clear] rule matches the texts that are [clear] between
    blanks. *)
Lemma clear_match s : search Pat.clear s = true -> Str.strip s = "clear".
Proof.
  unfold Pat.clear, Pat.verb_bare. rewrite search_bol. cbn [matchk].
  intros H. apply star_space_inv in H as (ws1 & t1 & p1 & -> & Hws1 & H).
  apply lit_k_inv in H as (t2 & p2 & -> & H).
  apply star_space_inv in H as (ws2 & t3 & p3 & -> & Hws2 & H).
  apply andb_true_iff in H as [H _]. apply at_eol_allspace in H.
  apply strip_padded; try reflexivity; [exact Hws1|].
  rewrite allspace_app, Hws2, H. reflexivity.
Qed.

Lemma classify_nil command :
  classify command = [] <-> Str.strip command = "clear".
Proof.
  split.
  - intros H.
    assert (Hc : search Pat.clear (Str.strip command) = true).
    { unfold classify in H.
      change (re_search "^\s*clear\s*$" (Str.strip command))
        with (search Pat.clear (Str.strip command)) in H.
      destruct (search Pat.clear (Str.strip command)); [reflexivity|].
      repeat match type of H with
             | context [re_search ?p ?s] => destruct (re_search p s)
             end; discriminate H. }
    apply clear_match in Hc. rewrite strip_strip in Hc. exact Hc.
  - intros H. unfold classify. rewrite H. vm_compute. reflexivity.
Qed.

Lemma keeps_not_clear c :
  keeps c = negb (String.eqb (Str.strip c) "clear").
Proof.
  unfold keeps. destruct (String.eqb_spec (Str.strip c) "clear") as [E|E].
  - apply classify_nil in E. rewrite E. reflexivity.
  - destruct (classify c) eqn:Hc; [|reflexivity].
    apply classify_nil in Hc. contradiction.
Qed.

End Decompose.

(** X4.  The classification does not depend on the blanks around the
    command: a command between blanks is classified as the command
    alone, and so is what the trimming leaves of it. *)
Theorem X4_blanks_ignored (ws1 command ws2 : string) :
  Str.allspace ws1 = true -> Str.allspace ws2 = true ->
  classify (ws1 ++ command ++ ws2) = classify command
  /\ classify (Str.strip command) = classify command.
Proof.
  intros H1 H2. unfold classify.
  rewrite (strip_padding ws1 command ws2 H1 H2), strip_strip. auto.
Qed.

Lemma X4_blanks_ignored_witness :
  classify ("  " ++ "ls -la" ++ " ") = classify "ls -la".
Proof.
  exact (proj1 (X4_blanks_ignored "  " "ls -la" " " eq_refl eq_refl)).
Defined.

(** X5.  The classification is empty for the commands that are [clear]
    once trimmed, and for no other command. *)
Theorem X5_empty_only_for_clear (command : string) :
  classify command = [] <-> Str.strip command = "clear".
Proof. apply classify_nil. Qed.

(** * Further properties of the resolver and of the analyzer *)

Section Lookup.

Lemma primary_id_raises it :
  primary_id it = inl IndexError <-> external_references it = Some [].
Proof.
  unfold primary_id. destruct (external_references it) as [[|r rs]|];
    split; intros H; congruence.
Qed.

(** The only way the scan raises. *)
Lemma first_match_raises technique st :
  first_match technique st = inl IndexError <->
  exists pre it post,
    st = pre ++ it :: post
    /\ external_references it = Some []
    /\ Forall (no_match technique) pre.
Proof.
  split.
  - induction st as [|x rest IH]; simpl; [discriminate|].
    destruct (primary_id x) as [[]|pid] eqn:Hpid.
    + intros _. exists [], x, rest. split; [reflexivity|].
      split; [apply primary_id_raises, Hpid|constructor].
    + destruct (Str.contains technique pid) eqn:Hc; [discriminate|].
      destruct (first_match technique rest) as [[]|[[i found]|]];
        try discriminate.
      intros _. destruct (IH eq_refl) as (pre & it & post & -> & Hit & Hpre).
      exists (x :: pre), it, post. split; [reflexivity|].
      split; [exact Hit|]. constructor; [exists pid; auto|exact Hpre].
  - intros (pre & it & post & -> & Hit & Hpre).
    apply first_match_None in Hpre. rewrite first_match_app, Hpre. simpl.
    apply primary_id_raises in Hit. rewrite Hit. reflexivity.
Qed.

Lemma chosen_advances st u technique r :
  advances st u -> chosen u technique r -> chosen st technique r.
Proof.
  unfold chosen. intros Hadv.
  pose proof (first_match_advances technique st u Hadv) as H.
  destruct (first_match technique st) as [e|[[i a]|]].
  - rewrite H. auto.
  - destruct H as (b & -> & _). auto.
  - rewrite H. auto.
Qed.

Lemma resolve_chosen technique st r st' :
  resolve technique st = inr (r, st') -> chosen st technique r.
Proof.
  rewrite resolve_norm. unfold chosen.
  destruct (first_match technique st) as [e|[[i it]|]]; intros H;
    inversion H; reflexivity.
Qed.

Lemma resolve_all_chosen techniques st l st' :
  resolve_all techniques st = inr (l, st') ->
  Forall2 (chosen st) techniques l.
Proof.
  revert st l st'. induction techniques as [|t ts IH]; intros st l st' H;
    simpl in H.
  - inversion H. constructor.
  - unfold bind, ret in H.
    destruct (resolve t st) as [e|[r st1]] eqn:E1; [discriminate|].
    destruct (resolve_all ts st1) as [e|[rest st2]] eqn:E2; [discriminate|].
    inversion H; subst. constructor; [eapply resolve_chosen, E1|].
    eapply Forall2_impl; [eapply IH, E2|].
    intros t' r'. apply chosen_advances. eapply resolve_advances, E1.
Qed.

End Lookup.


Section Compose.

Lemma readlines_app t1 t2 :
  Str.readlines ((t1 ++ String Char.newline "") ++ t2)
  = Str.readlines (t1 ++ String Char.newline "") ++ Str.readlines t2.
Proof.
  induction t1 as [|c t1 IH]; simpl.
  - reflexivity.
  - destruct (Ascii.eqb c Char.newline).
    + rewrite IH. reflexivity.
    + rewrite IH.
      destruct (Str.readlines (t1 ++ String Char.newline "")) as [|l ls] eqn:E.
      * exfalso. clear -E. induction t1 as [|d t1 IH]; simpl in E.
        -- discriminate.
        -- destruct (Ascii.eqb d Char.newline); [discriminate|].
           destruct (Str.readlines (t1 ++ String Char.newline ""));
             discriminate.
      * reflexivity.
Qed.

Lemma segments_app t1 t2 :
  segments ((t1 ++ String Char.newline "") ++ t2)
  = segments (t1 ++ String Char.newline "") ++ segments t2.
Proof. unfold segments. rewrite readlines_app. apply flat_map_app. Qed.

(** The entries are appended to the ones there are. *)
Lemma for_each_acc segs acc st :
  for_each segs analyze_command acc st
  = match for_each segs analyze_command [] st with
    | inl e => inl e
    | inr (new, st') => inr (acc ++ new, st')
    end.
Proof.
  revert acc st. induction segs as [|c segs IH]; intros acc st; simpl.
  - unfold ret. rewrite app_nil_r. reflexivity.
  - unfold bind, analyze_command, bind, ret.
    destruct (map_command_to_mitre c st) as [e|[l st1]]; [reflexivity|].
    rewrite IH. rewrite (IH (if is_nil l then [] else _)).
    destruct (for_each segs analyze_command [] st1) as [e|[new st2]];
      [reflexivity|].
    destruct (is_nil l); simpl; [reflexivity|].
    rewrite <- app_assoc. reflexivity.
Qed.

End Compose.

(** X6.  The lookup of a technique id raises exactly when a record whose
    list of external references is empty comes before every record that
    passes the test; on any other dataset it returns. *)
Theorem X6_lookup_raises_iff (technique : string) (objects : store) :
  resolve technique objects = inl IndexError <->
  exists pre it post,
    objects = pre ++ it :: post
    /\ external_references it = Some []
    /\ Forall (no_match technique) pre.
Proof.
  rewrite <- first_match_raises, resolve_norm.
  destruct (first_match technique objects) as [[]|[[i it]|]];
    split; intros H; congruence.
Qed.

(** X7.  When [map_command_to_mitre] returns, it returns one record for
    each technique id of the classification, in the same order, and the
    record for an id is the one the scan of the dataset gives for it, as
    the dataset was before the call: the first record whose identifier
    contains the id, or the default record. *)
Theorem X7_one_record_per_id (command : string) (objects : store)
  (l : list ref) (objects' : store) :
  map_command_to_mitre command objects = inr (l, objects') ->
  Forall2 (chosen objects) (classify command) l
  /\ length l = length (classify command).
Proof.
  intros H. split.
  - eapply resolve_all_chosen, H.
  - eapply resolve_all_length, H.
Qed.

Lemma X7_one_record_per_id_witness :
  exists objects',
    Forall2 (chosen sample_data) (classify "cat /etc/passwd")
      [Fresh placeholder; Fresh placeholder]
    /\ map_command_to_mitre "cat /etc/passwd" sample_data
       = inr ([Fresh placeholder; Fresh placeholder], objects').
Proof.
  exists sample_data. split; [|reflexivity].
  exact (proj1 (X7_one_record_per_id "cat /etc/passwd" sample_data
                  [Fresh placeholder; Fresh placeholder] sample_data eq_refl)).
Defined.

(** X8.  In the results of an analysis every technique record of every
    entry, read in the dataset as the analysis left it, has a list of
    solutions that is not empty. *)
Theorem X8_results_have_solutions (text : string) (objects : store)
  (res : list entry) (objects' : store) :
  analyze_bash_history text objects = inr (res, objects') ->
  Forall (fun e => Forall (settled objects') (techniques e)) res.
Proof. apply analyze_settled. Qed.

Lemma X8_results_have_solutions_witness :
  exists res objects',
    analyze_bash_history "ls; whoami; history" sample_data
    = inr (res, objects')
    /\ Forall (fun e => Forall (settled objects') (techniques e)) res.
Proof.
  destruct (analyze_bash_history "ls; whoami; history" sample_data)
    as [e|[res objects']] eqn:E.
  - vm_compute in E. discriminate.
  - exists res, objects'. split; [reflexivity|].
    exact (X8_results_have_solutions _ _ _ _ E).
Defined.

(** X9.  An analysis never touches a record that has solutions; on a
    dataset where every record has solutions it changes nothing. *)
Theorem X9_records_with_solutions_kept (text : string) (objects : store)
  (res : list entry) (objects' : store) :
  analyze_bash_history text objects = inr (res, objects') ->
  (forall i it,
     objects !! i = Some it -> falsy (solutions it) = false ->
     objects' !! i = Some it)
  /\ (Forall (fun it => falsy (solutions it) = false) objects ->
      objects' = objects).
Proof.
  intros H. pose proof (proj1 (stable_analyze text _ _ _ H)) as Hadv.
  split.
  - intros i it Hi Hf. eapply advances_truthy; eauto.
  - intros Hall. apply advances_all_truthy; assumption.
Qed.

Lemma X9_records_with_solutions_kept_witness :
  let objects := [with_solutions ["Restrict file permissions."]
                    (technique_record "T1083" "Discovery" "Listing files.")] in
  exists res,
    analyze_bash_history "cd /; ls" objects = inr (res, objects).
Proof.
  intros objects.
  destruct (analyze_bash_history "cd /; ls" objects)
    as [e|[res objects']] eqn:E.
  - vm_compute in E. discriminate.
  - exists res. f_equal. f_equal.
    apply (proj2 (X9_records_with_solutions_kept _ _ _ _ E)).
    repeat constructor.
Defined.

(** X10.  The entries of an analysis are those of the commands of the
    log that are not [clear] once trimmed, in order, and every entry has
    one or two technique records, as many as its command has ids. *)
Theorem X10_entries (text : string) (objects : store)
  (res : list entry) (objects' : store) :
  analyze_bash_history text objects = inr (res, objects') ->
  map command res
  = List.filter (fun c => negb (String.eqb (Str.strip c) "clear"))
      (segments text)
  /\ Forall (fun e =>
               length (techniques e) = length (classify (command e))
               /\ 1 <= length (techniques e) <= 2) res.
Proof.
  intros H. split.
  - rewrite (analyze_commands _ _ _ _ H).
    apply List.filter_ext. intros c. apply keeps_not_clear.
  - pose proof (analyze_entries _ _ _ _ H) as Hent.
    assert (Hkeep : Forall (fun c => keeps c = true)
                      (List.filter keeps (segments text))).
    { apply Forall_forall. intros c Hc%list_elem_of_In.
      apply List.filter_In in Hc as [_ Hc]. exact Hc. }
    clear H. induction Hent as [|c e cs es [Hc (s1 & s2 & Hm)] _ IH];
      constructor.
    + apply resolve_all_length in Hm. rewrite Hc.
      apply Forall_cons in Hkeep as [Hk _]. unfold keeps in Hk.
      pose proof (classify_length c). rewrite Hm.
      destruct (classify c); simpl in *; [discriminate|].
      split; [reflexivity|lia].
    + apply IH. apply Forall_cons in Hkeep as [_ Hk]. exact Hk.
Qed.

Lemma X10_entries_witness :
  exists res objects',
    analyze_bash_history " clear ;cat /etc/passwd;;clear" sample_data
    = inr (res, objects')
    /\ map command res = ["cat /etc/passwd"; ""].
Proof.
  destruct (analyze_bash_history " clear ;cat /etc/passwd;;clear" sample_data)
    as [e|[res objects']] eqn:E.
  - vm_compute in E. discriminate.
  - exists res, objects'. split; [reflexivity|].
    rewrite (proj1 (X10_entries _ _ _ _ E)). vm_compute. reflexivity.
Defined.

(** X11.  Logs compose: the analysis of a log that continues a log
    ending with a newline is the analysis of the first log, then the
    analysis of the rest on the dataset as the first left it, the
    entries of the second after those of the first; and it raises when
    one of the two does. *)
Theorem X11_logs_compose (t1 t2 : string) (objects : store) :
  analyze_bash_history ((t1 ++ String Char.newline "") ++ t2) objects
  = match analyze_bash_history (t1 ++ String Char.newline "") objects with
    | inl e => inl e
    | inr (res1, objects1) =>
        match analyze_bash_history t2 objects1 with
        | inl e => inl e
        | inr (res2, objects2) => inr (res1 ++ res2, objects2)
        end
    end.
Proof.
  rewrite !analyze_segments, segments_app, for_each_app. unfold bind.
  destruct (for_each (segments (t1 ++ String Char.newline ""))
              analyze_command [] objects) as [e|[res1 objects1]];
    [reflexivity|].
  rewrite analyze_segments. apply for_each_acc.
Qed.

(** * Further properties of the splitting *)

Section Splitting.

Lemma has_char_cons a b s :
  has_char a (String b s) = Ascii.eqb a b || has_char a s.
Proof. unfold has_char. simpl. rewrite andb_true_r. reflexivity. Qed.

Lemma has_char_app a x y :
  has_char a (x ++ y) = has_char a x || has_char a y.
Proof.
  induction x as [|c x IH].
  - reflexivity.
  - change (String c x ++ y)%string with (String c (x ++ y)).
    rewrite !has_char_cons, IH. apply orb_assoc.
Qed.

Lemma has_char_lstrip a s :
  has_char a s = false -> has_char a (Str.lstrip s) = false.
Proof.
  induction s as [|c s IH]; [auto|]. intros H. simpl.
  destruct (Char.isspace c); [|exact H].
  rewrite has_char_cons in H. apply orb_false_iff in H as [_ H]. auto.
Qed.

Lemma has_char_rstrip a s :
  has_char a s = false -> has_char a (Str.rstrip s) = false.
Proof.
  induction s as [|c s IH]; [auto|]. intros H. simpl.
  rewrite has_char_cons in H. apply orb_false_iff in H as [Hc H].
  destruct (Char.isspace c && Str.is_empty (Str.rstrip s)); [reflexivity|].
  rewrite has_char_cons, Hc. simpl. auto.
Qed.

Lemma has_char_strip a s :
  has_char a s = false -> has_char a (Str.strip s) = false.
Proof. intros H. apply has_char_rstrip, has_char_lstrip, H. Qed.

Lemma split_nonempty sep s : Str.split sep s <> [].
Proof.
  destruct s as [|c s]; simpl; [discriminate|].
  destruct (Ascii.eqb c sep); [discriminate|].
  destruct (Str.split sep s); discriminate.
Qed.

(** No piece has the separator, and the pieces have no character the
    text has not. *)
Lemma split_pieces sep a s :
  (a = sep \/ has_char a s = false) ->
  Forall (fun w => has_char a w = false) (Str.split sep s).
Proof.
  induction s as [|c s IH]; intros H; simpl.
  - repeat constructor.
  - assert (Hs : a = sep \/ has_char a s = false).
    { destruct H as [H|H]; [left; exact H|right].
      rewrite has_char_cons in H. apply orb_false_iff in H as [_ H]. exact H. }
    specialize (IH Hs). destruct (Ascii.eqb_spec c sep) as [->|Hne].
    + constructor; [reflexivity|exact IH].
    + pose proof (split_nonempty sep s) as Hnil.
      destruct (Str.split sep s) as [|w ws]; [contradiction|].
      apply Forall_cons in IH as [Hw Hws]. constructor; [|exact Hws].
      rewrite has_char_cons, Hw. destruct H as [->|H].
      * destruct (Ascii.eqb_spec sep c); [congruence|reflexivity].
      * rewrite has_char_cons in H. apply orb_false_iff in H as [-> _].
        reflexivity.
Qed.

(** A line is a text without newline, followed or not by a newline. *)
Lemma readlines_lines text :
  Forall (fun l => exists body,
              has_char Char.newline body = false
              /\ (l = body \/ l = (body ++ String Char.newline "")%string))
    (Str.readlines text).
Proof.
  induction text as [|c text IH]; simpl; [constructor|].
  destruct (Ascii.eqb_spec c Char.newline) as [->|Hne].
  - constructor; [|exact IH]. exists "". auto.
  - assert (Hc : forall body, has_char Char.newline body = false ->
                   has_char Char.newline (String c body) = false).
    { intros body Hb. rewrite has_char_cons, Hb.
      destruct (Ascii.eqb_spec Char.newline c); [congruence|reflexivity]. }
    destruct (Str.readlines text) as [|l ls].
    + constructor; [|constructor]. exists (String c ""). auto.
    + apply Forall_cons in IH as [(body & Hb & Hl) Hls].
      constructor; [|exact Hls]. exists (String c body).
      split; [auto|]. destruct Hl as [->| ->]; auto.
Qed.

Lemma segments_chars text :
  Forall (fun c => has_char Char.semicolon c = false
                   /\ has_char Char.newline c = false)
    (segments text).
Proof.
  unfold segments. pose proof (readlines_lines text) as Hlines.
  induction Hlines as [|l ls (body & Hb & Hl) _ IH]; simpl; [constructor|].
  apply Forall_app. split; [|exact IH].
  assert (Hstrip : has_char Char.newline (Str.strip l) = false).
  { destruct Hl as [->| ->]; [apply has_char_strip, Hb|].
    pose proof (strip_padding "" body (String Char.newline "") eq_refl eq_refl)
      as E.
    simpl in E. rewrite E. apply has_char_strip, Hb. }
  pose proof (split_pieces Char.semicolon Char.semicolon (Str.strip l)
                (or_introl eq_refl)) as H1.
  pose proof (split_pieces Char.semicolon Char.newline (Str.strip l)
                (or_intror Hstrip)) as H2.
  rewrite Forall_forall in *. intros c Hc. auto.
Qed.

Lemma join_split sep s :
  String.concat (String sep "") (Str.split sep s) = s.
Proof.
  induction s as [|c s IH]; simpl; [reflexivity|].
  pose proof (split_nonempty sep s) as Hne.
  destruct (Ascii.eqb_spec c sep) as [->|Hc].
  - destruct (Str.split sep s) as [|w ws]; [contradiction|].
    simpl in *. rewrite IH. reflexivity.
  - destruct (Str.split sep s) as [|w ws]; [contradiction|].
    destruct ws as [|w' ws]; simpl in *; rewrite <- IH; reflexivity.
Qed.

Lemma join_readlines text : String.concat "" (Str.readlines text) = text.
Proof.
  induction text as [|c text IH]; simpl; [reflexivity|].
  destruct (Ascii.eqb c Char.newline).
  - destruct (Str.readlines text) as [|l ls]; simpl in *;
      rewrite <- IH; reflexivity.
  - destruct (Str.readlines text) as [|l ls]; simpl in *.
    + rewrite <- IH. reflexivity.
    + destruct ls; simpl in *; rewrite <- IH; reflexivity.
Qed.

End Splitting.

(** X12.  No command stored in the results contains a semicolon or a
    newline: a semicolon always separates two commands, also between
    quotes. *)
Theorem X12_no_separator_in_command (text : string) (objects : store)
  (res : list entry) (objects' : store) :
  analyze_bash_history text objects = inr (res, objects') ->
  Forall (fun e => has_char Char.semicolon (command e) = false
                   /\ has_char Char.newline (command e) = false) res.
Proof.
  intros H. pose proof (analyze_commands _ _ _ _ H) as Hcmd.
  pose proof (segments_chars text) as Hseg.
  apply Forall_forall. intros e He%list_elem_of_In.
  rewrite Forall_forall in Hseg. apply Hseg, list_elem_of_In.
  apply (List.in_map command) in He. rewrite Hcmd in He.
  apply List.filter_In in He as [He _]. exact He.
Qed.

Lemma X12_no_separator_in_command_witness :
  exists res objects',
    analyze_bash_history "echo 'a;b' > .zsh_history" sample_data
    = inr (res, objects')
    /\ map command res = ["echo 'a"; "b' > .zsh_history"]
    /\ Forall (fun e => has_char Char.semicolon (command e) = false
                        /\ has_char Char.newline (command e) = false) res.
Proof.
  destruct (analyze_bash_history "echo 'a;b' > .zsh_history" sample_data)
    as [e|[res objects']] eqn:E.
  - vm_compute in E. discriminate.
  - exists res, objects'. split; [reflexivity|]. split.
    + rewrite (analyze_commands _ _ _ _ E). vm_compute. reflexivity.
    + exact (X12_no_separator_in_command _ _ _ _ E).
Defined.

(** X13.  The splitting loses no text: the lines of the log put end to
    end are the log, and the commands of a line joined with semicolons
    are the trimmed line. *)
Theorem X13_splitting_round_trip (text line : string) :
  String.concat "" (Str.readlines text) = text
  /\ String.concat ";" (Str.split Char.semicolon (Str.strip line))
     = Str.strip line.
Proof. split; [apply join_readlines|apply join_split]. Qed.

(** * Properties of the reports *)

Section Reports.

Context {O : Type}.

Lemma wfor_write {A} (f : A -> O) xs :
  wfor xs (fun x => write (f x)) = (map f xs, inr tt).
Proof.
  induction xs as [|x xs IH]; simpl; [reflexivity|].
  rewrite IH. reflexivity.
Qed.

(** A loop whose body always succeeds writes what its bodies write. *)
Lemma wfor_ok {A} (body : A -> W O unit) (out : A -> list O) xs :
  Forall (fun x => body x = (out x, inr tt)) xs ->
  wfor xs body = (flat_map out xs, inr tt).
Proof.
  induction 1 as [|x xs Hx _ IH]; simpl; [reflexivity|].
  rewrite Hx, IH. reflexivity.
Qed.

(** A loop succeeds when every turn does, and only then. *)
Lemma wfor_succeeds {A} (body : A -> W O unit) xs :
  snd (wfor xs body) = inr tt <->
  Forall (fun x => snd (body x) = inr tt) xs.
Proof.
  induction xs as [|x xs IH]; simpl.
  - split; [constructor|reflexivity].
  - destruct (body x) as [out [e|[]]] eqn:E; simpl.
    + split; [discriminate|]. intros H. apply Forall_cons in H as [H _].
      rewrite E in H. discriminate.
    + destruct (wfor xs body) as [out' r]. simpl in *. rewrite IH.
      split.
      * intros H. constructor; [rewrite E; reflexivity|exact H].
      * intros H. apply Forall_cons in H as [_ H]. exact H.
Qed.

End Reports.

Section Console.

Lemma print_technique_complete d :
  complete d = true -> falsy (solutions d) = false ->
  print_technique d = (technique_lines d, inr tt).
Proof.
  unfold complete, print_technique, technique_lines.
  destruct (name d) as [n|]; [|discriminate].
  destruct (description d) as [de|]; [|discriminate].
  intros _ Hf. simpl. rewrite Hf, wfor_write. reflexivity.
Qed.

Lemma print_technique_succeeds d :
  snd (print_technique d) = inr tt <-> complete d = true.
Proof.
  unfold complete, print_technique.
  destruct (name d) as [n|]; [|split; discriminate].
  destruct (description d) as [de|]; [|split; discriminate].
  simpl. destruct (falsy (solutions d)); simpl.
  - split; reflexivity.
  - rewrite wfor_write. simpl. split; reflexivity.
Qed.

Lemma print_results_succeeds results :
  snd (print_results results) = inr tt <->
  Forall (fun r => Forall (fun d => complete d = true) (snd r)) results.
Proof.
  unfold print_results. simpl.
  destruct (wfor results print_result) as [out r] eqn:E. simpl.
  change r with (snd (out, r)). rewrite <- E, wfor_succeeds.
  apply Forall_iff. intros [c ds]. unfold print_result. simpl.
  destruct (wfor ds print_technique) as [out' r'] eqn:E'. simpl.
  change r' with (snd (out', r')). rewrite <- E', wfor_succeeds.
  apply Forall_iff. intros d. apply print_technique_succeeds.
Qed.

(** The console report of entries that lack nothing. *)
Lemma print_results_complete results :
  Forall (fun r => Forall (fun d => complete d = true
                                    /\ falsy (solutions d) = false) (snd r))
    results ->
  print_results results
  = ("Analysis Results:" :: flat_map entry_lines results, inr tt).
Proof.
  intros H. unfold print_results.
  rewrite (wfor_ok print_result entry_lines).
  - reflexivity.
  - eapply Forall_impl; [exact H|]. intros [c ds] Hds. simpl in Hds.
    unfold print_result, entry_lines. simpl.
    rewrite (wfor_ok print_technique technique_lines); [reflexivity|].
    eapply Forall_impl; [exact Hds|]. intros d [Hc Hf].
    apply print_technique_complete; assumption.
Qed.

(** What an analysis returns can be shown, and every dictionary shown
    has solutions. *)
Lemma deref_all_settled st rs :
  Forall (settled st) rs ->
  exists ds, deref_all st rs = Some ds
             /\ Forall (fun d => falsy (solutions d) = false) ds.
Proof.
  induction 1 as [|r rs Hr _ (ds & Hds & Hall)]; simpl.
  - exists []. split; [reflexivity|constructor].
  - apply settled_truthy in Hr as (d & Hd & Hf). rewrite Hd, Hds.
    exists (d :: ds). split; [reflexivity|]. constructor; assumption.
Qed.

Lemma show_all_settled st res :
  Forall (fun e => Forall (settled st) (techniques e)) res ->
  exists v, show_all st res = Some v
            /\ map fst v = map command res
            /\ Forall (fun r => Forall (fun d => falsy (solutions d) = false)
                                  (snd r)) v.
Proof.
  induction 1 as [|e res He _ (v & Hv & Hc & Hall)]; simpl.
  - exists []. repeat split; constructor.
  - destruct (deref_all_settled _ _ He) as (ds & Hds & Hf).
    rewrite Hds, Hv. exists ((command e, ds) :: v).
    split; [reflexivity|]. split; [simpl; rewrite Hc; reflexivity|].
    constructor; assumption.
Qed.

End Console.

Section SameTexts.

Lemma texts_app a b : texts (a ++ b) = texts a ++ texts b.
Proof. unfold texts. apply flat_map_app. Qed.

Lemma texts_bullets sols :
  map Str.lstrip
    (texts (map (fun solution => Paragraph ("  * " ++ solution) Bullet) sols))
  = map Str.lstrip (map (fun solution => ("    * " ++ solution)%string) sols).
Proof.
  induction sols as [|s sols IH]; [reflexivity|].
  cbn [map texts flat_map app]. fold (texts (map (fun solution =>
    Paragraph ("  * " ++ solution) Bullet) sols)).
  rewrite IH. reflexivity.
Qed.

Lemma technique_texts d :
  map Str.lstrip (texts (technique_flowables d))
  = map Str.lstrip (technique_lines d).
Proof.
  unfold technique_flowables, technique_lines.
  rewrite !texts_app, !map_app, texts_bullets. simpl. rewrite app_nil_r.
  reflexivity.
Qed.

Lemma techniques_texts ds :
  map Str.lstrip (texts (flat_map technique_flowables ds))
  = map Str.lstrip (flat_map technique_lines ds).
Proof.
  induction ds as [|d ds IH]; [reflexivity|]. cbn [flat_map].
  rewrite texts_app, !map_app, technique_texts, IH. reflexivity.
Qed.

Lemma entries_texts results :
  map Str.lstrip (texts (flat_map entry_flowables results))
  = map Str.lstrip (flat_map entry_lines results).
Proof.
  induction results as [|[c ds] results IH]; [reflexivity|].
  cbn [flat_map]. rewrite texts_app, !map_app, IH. f_equal.
  unfold entry_flowables, entry_lines. cbn [fst snd].
  change (texts (Paragraph ("Command: " ++ c) Heading2
                 :: Spacer 1 6 :: flat_map technique_flowables ds))
    with (("Command: " ++ c)%string
          :: texts (flat_map technique_flowables ds)).
  cbn [map]. rewrite techniques_texts. reflexivity.
Qed.

End SameTexts.

(** ** The story *)

Section Story.

Variable accepts : style -> string -> bool.

Lemma paragraph_accepted t sty :
  accepts sty t = true ->
  paragraph accepts t sty = ([Paragraph t sty], inr tt).
Proof. unfold paragraph. intros ->. reflexivity. Qed.

Lemma paragraph_succeeds t sty :
  snd (paragraph accepts t sty) = inr tt -> accepts sty t = true.
Proof.
  unfold paragraph. destruct (accepts sty t); [reflexivity|discriminate].
Qed.

(** A paragraph only fails with the exception of the library, on a
    text the library does not accept. *)
Lemma paragraph_fails t sty out e :
  paragraph accepts t sty = (out, inl e) ->
  e = ValueError t /\ accepts sty t = false.
Proof.
  unfold paragraph. destruct (accepts sty t); simpl; [discriminate|].
  intros [= _ <-]. auto.
Qed.

Lemma wbind_succeeds {O A B} (m : W O A) (f : A -> W O B) b :
  snd (wbind m f) = inr b ->
  exists out a, m = (out, inr a) /\ snd (f a) = inr b.
Proof.
  destruct m as [out [e|a]]; simpl; [discriminate|].
  destruct (f a) as [out' r] eqn:E. simpl. intros Hr.
  exists out, a. rewrite E. split; [reflexivity|exact Hr].
Qed.

Lemma wbind_fails {O A B} (m : W O A) (f : A -> W O B) e :
  snd (wbind m f) = inl e ->
  (exists out, m = (out, inl e))
  \/ exists out a, m = (out, inr a) /\ snd (f a) = inl e.
Proof.
  destruct m as [out [e'|a]]; simpl.
  - intros [= ->]. left. exists out. reflexivity.
  - destruct (f a) as [out' r] eqn:E. simpl. intros Hr. right.
    exists out, a. rewrite E. split; [reflexivity|exact Hr].
Qed.

Lemma wfor_fails {O A} (body : A -> W O unit) xs e :
  snd (wfor xs body) = inl e -> exists x, In x xs /\ snd (body x) = inl e.
Proof.
  induction xs as [|x xs IH]; simpl; [discriminate|].
  intros [(out & H)|(out & a & _ & H)]%wbind_fails.
  - exists x. rewrite H. auto.
  - destruct (IH H) as (y & Hy & He). exists y. auto.
Qed.

Lemma accepted_app a b :
  accepted accepts (a ++ b) <-> accepted accepts a /\ accepted accepts b.
Proof. unfold accepted. apply Forall_app. Qed.

Lemma accepted_flat_map {A} (f : A -> list flowable) xs :
  accepted accepts (flat_map f xs)
  <-> Forall (fun x => accepted accepts (f x)) xs.
Proof.
  induction xs as [|x xs IH]; simpl.
  - split; constructor.
  - rewrite accepted_app, IH. split.
    + intros [H1 H2]. constructor; assumption.
    + intros H. inversion H; subst. auto.
Qed.

Lemma accepted_paragraph t sty fs :
  accepted accepts (Paragraph t sty :: fs)
  <-> accepts sty t = true /\ accepted accepts fs.
Proof.
  unfold accepted. split.
  - intros H. inversion H; subst. auto.
  - intros [H1 H2]. constructor; assumption.
Qed.

Lemma accepted_spacer w h fs :
  accepted accepts (Spacer w h :: fs) <-> accepted accepts fs.
Proof.
  unfold accepted. split.
  - intros H. inversion H; subst. assumption.
  - intros H. constructor; [exact I|assumption].
Qed.

Lemma accepted_bullets sols :
  accepted accepts
    (map (fun solution => Paragraph ("  * " ++ solution) Bullet) sols)
  <-> Forall (fun solution =>
                accepts Bullet ("  * " ++ solution)%string = true) sols.
Proof.
  induction sols as [|x sols IH]; simpl.
  - split; constructor.
  - rewrite accepted_paragraph, IH. split.
    + intros [H1 H2]. constructor; assumption.
    + intros H. inversion H; subst. auto.
Qed.

Lemma bullets_accepted sols :
  Forall (fun solution =>
            accepts Bullet ("  * " ++ solution)%string = true) sols ->
  wfor sols (fun solution => paragraph accepts ("  * " ++ solution) Bullet)
  = (map (fun solution => Paragraph ("  * " ++ solution) Bullet) sols,
     inr tt).
Proof.
  induction 1 as [|x sols Hx _ IH]; [reflexivity|].
  cbn [wfor map]. rewrite (paragraph_accepted _ _ Hx), IH. reflexivity.
Qed.

(** The story of a technique that lacks nothing and whose texts the
    library accepts. *)
Lemma story_technique_complete d :
  complete d = true -> accepted accepts (technique_flowables d) ->
  story_technique accepts d = (technique_flowables d, inr tt).
Proof.
  unfold complete, story_technique, technique_flowables.
  destruct (name d) as [n|]; [|discriminate].
  destruct (description d) as [de|]; [|discriminate].
  intros _ H. cbn [from_option id] in H |- *.
  apply accepted_paragraph in H as [H1 H].
  apply accepted_paragraph in H as [H2 H].
  apply accepted_paragraph in H as [H3 H].
  apply accepted_app in H as [H4 _]. apply accepted_bullets in H4.
  cbn [getitem]. unfold wret. cbn [wbind].
  rewrite (paragraph_accepted _ _ H1). cbn [wbind].
  rewrite (paragraph_accepted _ _ H2). cbn [wbind].
  rewrite (paragraph_accepted _ _ H3). cbn [wbind].
  rewrite (bullets_accepted _ H4). reflexivity.
Qed.

Lemma story_technique_succeeds d :
  snd (story_technique accepts d) = inr tt ->
  complete d = true /\ accepted accepts (technique_flowables d).
Proof.
  unfold complete, story_technique, technique_flowables.
  intros H.
  apply wbind_succeeds in H as (o & n & En & H).
  destruct (name d) as [n'|]; [|discriminate En].
  injection En as <- <-.
  apply wbind_succeeds in H as (o1 & [] & E1 & H).
  apply wbind_succeeds in H as (o0 & de & E0 & H).
  destruct (description d) as [de'|]; [|discriminate E0].
  injection E0 as <- <-. cbn [from_option id].
  apply wbind_succeeds in H as (o2 & [] & E2 & H).
  apply wbind_succeeds in H as (o3 & [] & E3 & H).
  apply wbind_succeeds in H as (o4 & [] & E4 & _).
  split; [reflexivity|].
  apply accepted_paragraph. split.
  { apply (paragraph_succeeds _ Normal). exact (f_equal snd E1). }
  apply accepted_paragraph. split.
  { apply (paragraph_succeeds _ Normal). exact (f_equal snd E2). }
  apply accepted_paragraph. split.
  { apply (paragraph_succeeds _ Normal). exact (f_equal snd E3). }
  apply accepted_app. split; [|repeat constructor].
  apply accepted_bullets.
  assert (H4 : snd (wfor (default [] (solutions d))
                      (fun solution =>
                         paragraph accepts ("  * " ++ solution) Bullet))
               = inr tt) by (rewrite E4; reflexivity).
  apply wfor_succeeds in H4. eapply Forall_impl; [exact H4|].
  intros x Hx. eapply paragraph_succeeds, Hx.
Qed.

(** With a name and a description, a technique only fails on a text the
    library rejects. *)
Lemma story_technique_fails d e :
  complete d = true ->
  snd (story_technique accepts d) = inl e ->
  exists sty t, e = ValueError t /\ accepts sty t = false.
Proof.
  unfold complete, story_technique.
  destruct (name d) as [n|]; [|discriminate].
  destruct (description d) as [de|]; [|discriminate].
  intros _ H.
  apply wbind_fails in H as [(o & H)|(o' & n' & En & H)]; [discriminate|].
  injection En as <- <-.
  apply wbind_fails in H as [(o & H)|(o1 & [] & _ & H)];
    [apply paragraph_fails in H; eauto|].
  apply wbind_fails in H as [(o & H)|(o0 & a0 & E0 & H)]; [discriminate|].
  injection E0 as <- <-.
  apply wbind_fails in H as [(o & H)|(o2 & [] & _ & H)];
    [apply paragraph_fails in H; eauto|].
  apply wbind_fails in H as [(o & H)|(o3 & [] & _ & H)];
    [apply paragraph_fails in H; eauto|].
  apply wbind_fails in H as [(o & H)|(o4 & [] & _ & H)]; [|discriminate].
  assert (H' : snd (wfor (default [] (solutions d))
                      (fun solution =>
                         paragraph accepts ("  * " ++ solution) Bullet))
               = inl e) by (rewrite H; reflexivity).
  apply wfor_fails in H' as (x & _ & Hx).
  destruct (paragraph accepts ("  * " ++ x) Bullet) as [ox rx] eqn:Ex.
  simpl in Hx. subst rx. apply paragraph_fails in Ex. eauto.
Qed.

Lemma story_result_complete r :
  Forall (fun d => complete d = true) (snd r) ->
  accepted accepts (entry_flowables r) ->
  story_result accepts r = (entry_flowables r, inr tt).
Proof.
  destruct r as [c ds]. unfold story_result, entry_flowables. cbn [fst snd].
  intros Hc H. apply accepted_paragraph in H as [H1 H].
  apply accepted_spacer, accepted_flat_map in H.
  rewrite (paragraph_accepted _ _ H1). cbn [wbind write app].
  rewrite (wfor_ok (story_technique accepts) technique_flowables);
    [reflexivity|].
  rewrite Forall_forall in *. intros d Hd.
  apply story_technique_complete; auto.
Qed.

Lemma story_result_succeeds r :
  snd (story_result accepts r) = inr tt ->
  Forall (fun d => complete d = true) (snd r)
  /\ accepted accepts (entry_flowables r).
Proof.
  destruct r as [c ds]. unfold story_result, entry_flowables. cbn [fst snd].
  intros H.
  apply wbind_succeeds in H as (o1 & [] & E1 & H).
  apply wbind_succeeds in H as (o2 & [] & _ & H).
  apply wfor_succeeds in H.
  assert (Hall : Forall (fun d => complete d = true
                                  /\ accepted accepts (technique_flowables d))
                   ds).
  { eapply Forall_impl; [exact H|]. intros d. apply story_technique_succeeds. }
  split.
  - eapply Forall_impl; [exact Hall|]. intros d [Hd _]. exact Hd.
  - apply accepted_paragraph. split.
    { apply (paragraph_succeeds _ Heading2). exact (f_equal snd E1). }
    apply accepted_spacer, accepted_flat_map.
    eapply Forall_impl; [exact Hall|]. intros d [_ Hd]. exact Hd.
Qed.

Lemma story_result_fails r e :
  Forall (fun d => complete d = true) (snd r) ->
  snd (story_result accepts r) = inl e ->
  exists sty t, e = ValueError t /\ accepts sty t = false.
Proof.
  destruct r as [c ds]. unfold story_result. cbn [fst snd]. intros Hc H.
  apply wbind_fails in H as [(o & H)|(o1 & [] & _ & H)];
    [apply paragraph_fails in H; eauto|].
  apply wbind_fails in H as [(o & H)|(o2 & [] & _ & H)]; [discriminate|].
  apply wfor_fails in H as (d & Hd & H).
  rewrite Forall_forall in Hc.
  eapply story_technique_fails; [|exact H].
  apply Hc, list_elem_of_In, Hd.
Qed.

(** The story of entries that lack nothing and whose texts the library
    accepts. *)
Lemma build_story_complete results :
  Forall (fun r => Forall (fun d => complete d = true) (snd r)) results ->
  accepted accepts (full_story results) ->
  build_story accepts results = (full_story results, inr tt).
Proof.
  unfold build_story, full_story. intros Hc H.
  apply accepted_paragraph in H as [H1 H].
  apply accepted_spacer, accepted_flat_map in H.
  rewrite (paragraph_accepted _ _ H1). cbn [wbind write app].
  rewrite (wfor_ok (story_result accepts) entry_flowables); [reflexivity|].
  rewrite Forall_forall in *. intros r Hr.
  apply story_result_complete; auto.
Qed.

Lemma build_story_succeeds results :
  snd (build_story accepts results) = inr tt ->
  Forall (fun r => Forall (fun d => complete d = true) (snd r)) results
  /\ accepted accepts (full_story results).
Proof.
  unfold build_story, full_story. intros H.
  apply wbind_succeeds in H as (o1 & [] & E1 & H).
  apply wbind_succeeds in H as (o2 & [] & _ & H).
  apply wfor_succeeds in H.
  assert (Hall : Forall (fun r =>
                           Forall (fun d => complete d = true) (snd r)
                           /\ accepted accepts (entry_flowables r)) results).
  { eapply Forall_impl; [exact H|]. intros r. apply story_result_succeeds. }
  split.
  - eapply Forall_impl; [exact Hall|]. intros r [Hr _]. exact Hr.
  - apply accepted_paragraph. split.
    { apply (paragraph_succeeds _ Title). exact (f_equal snd E1). }
    apply accepted_spacer, accepted_flat_map.
    eapply Forall_impl; [exact Hall|]. intros r [_ Hr]. exact Hr.
Qed.

Lemma build_story_fails results e :
  Forall (fun r => Forall (fun d => complete d = true) (snd r)) results ->
  snd (build_story accepts results) = inl e ->
  exists sty t, e = ValueError t /\ accepts sty t = false.
Proof.
  unfold build_story. intros Hc H.
  apply wbind_fails in H as [(o & H)|(o1 & [] & _ & H)];
    [apply paragraph_fails in H; eauto|].
  apply wbind_fails in H as [(o & H)|(o2 & [] & _ & H)]; [discriminate|].
  apply wfor_fails in H as (r & Hr & H).
  rewrite Forall_forall in Hc.
  eapply story_result_fails; [|exact H].
  apply Hc, list_elem_of_In, Hr.
Qed.

(** When the story is produced, and what it is then. *)
Lemma generate_pdf_report_story results story :
  generate_pdf_report accepts results = inr story <->
  Forall (fun r => Forall (fun d => complete d = true) (snd r)) results
  /\ accepted accepts (full_story results)
  /\ story = full_story results.
Proof.
  unfold generate_pdf_report. split.
  - destruct (build_story accepts results) as [out [e|[]]] eqn:E;
      [discriminate|]. intros [= <-].
    assert (H : snd (build_story accepts results) = inr tt)
      by (rewrite E; reflexivity).
    apply build_story_succeeds in H as [Hc Ha].
    rewrite (build_story_complete results Hc Ha) in E.
    injection E as <-. auto.
  - intros (Hc & Ha & ->). rewrite (build_story_complete results Hc Ha).
    reflexivity.
Qed.

Lemma generate_pdf_report_error results e :
  Forall (fun r => Forall (fun d => complete d = true) (snd r)) results ->
  generate_pdf_report accepts results = inl e ->
  exists sty t, e = ValueError t /\ accepts sty t = false.
Proof.
  unfold generate_pdf_report. intros Hc.
  destruct (build_story accepts results) as [out [e'|[]]] eqn:E;
    [|discriminate]. intros [= <-].
  apply (build_story_fails results e' Hc). rewrite E. reflexivity.
Qed.

End Story.


(** X15.  What an analysis returns can be shown, command by command; and
    when the dictionaries shown have a name and a description, the
    console report is the heading, then for every entry its command and
    for every technique its name, its description, the line
    "  Solutions:" and one line for each of its solutions, of which
    there is at least one: the test of line 195 never skips the
    solutions of a record of an analysis. *)
Theorem X15_console_report (text : string) (objects : store)
  (res : list entry) (objects' : store) :
  analyze_bash_history text objects = inr (res, objects') ->
  exists v,
    show_all objects' res = Some v
    /\ map fst v = map command res
    /\ Forall (fun r => Forall (fun d => exists s rest,
                                   solutions d = Some (s :: rest)) (snd r)) v
    /\ (Forall (fun r => Forall (fun d => complete d = true) (snd r)) v ->
        print_results v
        = ("Analysis Results:" :: flat_map entry_lines v, inr tt)).
Proof.
  intros H. apply analyze_settled in H.
  destruct (show_all_settled _ _ H) as (v & Hv & Hc & Hf).
  exists v. split; [exact Hv|]. split; [exact Hc|]. split.
  - eapply Forall_impl; [exact Hf|]. intros r Hr. simpl in Hr.
    eapply Forall_impl; [exact Hr|]. intros d Hd. simpl in Hd.
    destruct (solutions d) as [[|s rest]|]; try discriminate. eauto.
  - intros Hcomplete. apply print_results_complete.
    rewrite Forall_forall in *. intros r Hr.
    specialize (Hcomplete r Hr). specialize (Hf r Hr).
    rewrite Forall_forall in *. auto.
Qed.

Lemma X15_console_report_witness :
  exists res objects' v,
    analyze_bash_history "ls -la; clear" sample_data = inr (res, objects')
    /\ show_all objects' res = Some v
    /\ print_results v
       = (["Analysis Results:"; "Command: ls -la";
           "  Technique: File and Directory Discovery";
           "  Description: Adversaries may enumerate files and directories.";
           "  Solutions:";
           "    * Adversaries may enumerate files and directories."],
          inr tt).
Proof.
  destruct (analyze_bash_history "ls -la; clear" sample_data)
    as [e|[res objects']] eqn:E.
  - vm_compute in E. discriminate.
  - destruct (X15_console_report _ _ _ _ E) as (v & Hv & _ & _ & Hprint).
    exists res, objects', v. split; [reflexivity|]. split; [exact Hv|].
    vm_compute in E. injection E as <- <-.
    vm_compute in Hv. injection Hv as <-.
    rewrite Hprint; [reflexivity|]. repeat constructor.
Defined.

(** X16.  The two reports of the results of an analysis carry the same
    texts in the same order: when both are produced, whatever texts the
    library accepts, the paragraphs of the story are, after the title,
    the lines of the console report after its heading, up to the blanks
    that indent them. *)
Theorem X16_reports_agree (accepts : style -> string -> bool) (text : string)
  (objects : store) (res : list entry) (objects' : store) (v : list shown)
  (out : list string) (story : list flowable) :
  analyze_bash_history text objects = inr (res, objects') ->
  show_all objects' res = Some v ->
  print_results v = (out, inr tt) ->
  generate_pdf_report accepts v = inr story ->
  map Str.lstrip (texts story)
  = "MITRE ATT&CK Mapping Report" :: map Str.lstrip (tl out).
Proof.
  intros H Hv Hout Hstory. apply analyze_settled in H.
  destruct (show_all_settled _ _ H) as (v' & Hv' & _ & Hf).
  assert (v' = v) as -> by congruence.
  assert (Hc : Forall (fun r => Forall (fun d => complete d = true) (snd r)) v).
  { apply print_results_succeeds. rewrite Hout. reflexivity. }
  rewrite print_results_complete in Hout.
  2:{ rewrite Forall_forall in *. intros r Hr.
      specialize (Hc r Hr). specialize (Hf r Hr).
      rewrite Forall_forall in *. auto. }
  injection Hout as <-.
  apply generate_pdf_report_story in Hstory as (_ & _ & ->).
  cbn [tl]. unfold full_story.
  change (texts (Paragraph "MITRE ATT&CK Mapping Report" Title
                 :: Spacer 1 12 :: flat_map entry_flowables v))
    with ("MITRE ATT&CK Mapping Report"
          :: texts (flat_map entry_flowables v)).
  cbn [map]. rewrite entries_texts. reflexivity.
Qed.

Lemma X16_reports_agree_witness :
  exists story out,
    generate_pdf_report (fun _ t => negb (has_char "<" t))
      [("whoami", [norm (technique_record "T1078" "Valid Accounts"
         "Adversaries may obtain and abuse credentials of existing accounts.")])]
    = inr story
    /\ map Str.lstrip (texts story)
       = "MITRE ATT&CK Mapping Report" :: map Str.lstrip (tl out).
Proof.
  eexists _, _. split; [reflexivity|].
  refine (X16_reports_agree (fun _ t => negb (has_char "<" t))
            "whoami" sample_data
            [{| command := "whoami"; techniques := [InData 1] |}]
            (<[1 := norm (technique_record "T1078" "Valid Accounts"
               "Adversaries may obtain and abuse credentials of existing accounts.")]>
               sample_data)
            _ _ _ eq_refl eq_refl eq_refl eq_refl).
Defined.

(** * The classification read off the first word *)

Section FirstWord.

Lemma first_word_split s :
  s = (first_word s ++ after_first_word s)%string.
Proof.
  induction s as [|c s IH]; simpl; [reflexivity|].
  destruct (Char.isspace c); simpl; [reflexivity|]. rewrite <- IH.
  reflexivity.
Qed.

Lemma after_first_word_blank_led s : blank_led (after_first_word s) = true.
Proof.
  induction s as [|c s IH]; simpl; [reflexivity|].
  destruct (Char.isspace c) eqn:Hc; [simpl; exact Hc|exact IH].
Qed.

Lemma first_word_unique v t :
  noblank v = true -> blank_led t = true ->
  first_word (v ++ t) = v /\ after_first_word (v ++ t) = t.
Proof.
  intros Hv Ht. induction v as [|c v IH]; simpl in *.
  - destruct t as [|a t]; simpl in *; [auto|]. rewrite Ht. auto.
  - apply andb_true_iff in Hv as [Hc Hv]. apply negb_true_iff in Hc.
    rewrite Hc. destruct (IH Hv) as [-> ->]. auto.
Qed.

Lemma lstrip_fixed s :
  Str.lstrip s = s -> s = "" \/ nonblank_head s = true.
Proof.
  intros H. destruct (lstrip_nonblank s) as [E|E]; rewrite H in E; auto.
Qed.

Lemma star_space_stripped (k : cont) p s :
  Str.lstrip s = s -> star_k Space k p s = k p s.
Proof.
  intros [->|H]%lstrip_fixed; simpl; [apply orb_false_r|].
  destruct s as [|c s]; [discriminate|]. simpl in *.
  apply negb_true_iff in H. rewrite H. apply orb_false_r.
Qed.

Lemma star_k_skip cl (k : cont) p s :
  k p s = true -> star_k cl k p s = true.
Proof. intros H. destruct s; simpl; rewrite H; reflexivity. Qed.

Lemma pfree_star cl k : pfree k -> pfree (star_k cl k).
Proof.
  intros Hk p q t. revert p q. induction t as [|c t IH]; intros p q; simpl.
  - rewrite (Hk p q). reflexivity.
  - rewrite (Hk p q). reflexivity.
Qed.

Lemma pfree_lit w k : pfree k -> pfree (lit_k w k).
Proof.
  intros Hk. induction w as [|a w IH]; intros p q t; simpl.
  - apply Hk.
  - destruct t; reflexivity.
Qed.

Lemma pfree_matchk r k :
  no_context r = true -> pfree k -> pfree (matchk r k).
Proof.
  revert k. induction r as [| | | |w|cl|cl|cl|r1 IH1 r2 IH2|r1 IH1 r2 IH2|r1 IH1];
    intros k Hr Hk; simpl in Hr; try discriminate.
  - exact Hk.
  - intros p q t. simpl. rewrite (Hk p q). reflexivity.
  - apply pfree_lit, Hk.
  - intros p q t. destruct t; reflexivity.
  - apply pfree_star, Hk.
  - intros p q t. destruct t; reflexivity.
  - apply andb_true_iff in Hr as [H1 H2]. intros p q t. simpl.
    apply IH1; [exact H1|]. apply IH2; assumption.
  - apply andb_true_iff in Hr as [H1 H2]. intros p q t. simpl.
    rewrite (IH1 k H1 Hk p q), (IH2 k H2 Hk p q). reflexivity.
  - intros p q t. simpl. rewrite (IH1 k Hr Hk p q), (Hk p q). reflexivity.
Qed.

Lemma pfree_accept : pfree accept.
Proof. intros p q t. reflexivity. Qed.

Lemma lit_k_app v k p t :
  pfree k -> lit_k v k p (v ++ t) = k None t.
Proof.
  intros Hk. revert p. induction v as [|a v IH]; intros p; simpl.
  - apply Hk.
  - rewrite Ascii.eqb_refl. apply IH.
Qed.

(** A verb followed by a pattern that asks for a blank or for the end:
    the verb is the first word. *)
Lemma lit_word v (k : cont) s :
  noblank v = true -> pfree k ->
  (forall p t, k p t = true -> blank_led t = true) ->
  lit_k v k None s
  = String.eqb (first_word s) v && k None (after_first_word s).
Proof.
  intros Hv Hk Hled. destruct (String.eqb_spec (first_word s) v) as [E|E].
  - simpl. rewrite (first_word_split s) at 1. rewrite E.
    apply lit_k_app, Hk.
  - simpl. destruct (lit_k v k None s) eqn:H; [|reflexivity].
    apply lit_k_inv in H as (t & p' & -> & Hkt).
    destruct (first_word_unique v t Hv (Hled _ _ Hkt)) as [Hw _].
    contradiction.
Qed.

Lemma search_verb v K s :
  noblank v = true -> Str.lstrip s = s -> no_context K = true ->
  (forall p t, matchk K accept p t = true -> blank_led t = true) ->
  search (Seq Bol (Seq (Star Space) (Seq (Lit v) K))) s
  = String.eqb (first_word s) v
    && matchk K accept None (after_first_word s).
Proof.
  intros Hv Hs HK Hled. rewrite search_bol. cbn [matchk].
  rewrite star_space_stripped by exact Hs.
  apply lit_word; [exact Hv| |exact Hled].
  apply pfree_matchk; [exact HK|apply pfree_accept].
Qed.

Lemma search_verb2 v1 v2 K s :
  noblank v1 = true -> noblank v2 = true ->
  Str.lstrip s = s -> no_context K = true ->
  (forall p t, matchk K accept p t = true -> blank_led t = true) ->
  search (Seq Bol (Seq (Star Space) (Seq (Alt (Lit v1) (Lit v2)) K))) s
  = (String.eqb (first_word s) v1 || String.eqb (first_word s) v2)
    && matchk K accept None (after_first_word s).
Proof.
  intros Hv1 Hv2 Hs HK Hled. rewrite search_bol. cbn [matchk].
  rewrite star_space_stripped by exact Hs.
  assert (Hp : pfree (matchk K accept))
    by (apply pfree_matchk; [exact HK|apply pfree_accept]).
  rewrite !lit_word by assumption.
  destruct (String.eqb (first_word s) v1), (String.eqb (first_word s) v2),
    (matchk K accept None (after_first_word s)); reflexivity.
Qed.

Lemma plus_blank_led cl (k : cont) p t :
  cl = Space -> plus_k cl k p t = true -> blank_led t = true.
Proof.
  intros ->. destruct t as [|c t]; simpl; [discriminate|].
  intros [H _]%andb_true_iff. exact H.
Qed.

Lemma eol_blank_led t : at_eol t = true -> blank_led t = true.
Proof.
  destruct t as [|c [|d t]]; simpl; try discriminate; [reflexivity|].
  intros H. apply Ascii.eqb_eq in H. subst c. reflexivity.
Qed.

Lemma K_opt_led p t : matchk K_opt accept p t = true -> blank_led t = true.
Proof.
  unfold K_opt. cbn [matchk]. intros [H|H]%orb_true_iff.
  - eapply plus_blank_led; [reflexivity|exact H].
  - apply andb_true_iff in H as [H _]. apply eol_blank_led, H.
Qed.

Lemma K_args_led p t : matchk K_args accept p t = true -> blank_led t = true.
Proof.
  unfold K_args. cbn [matchk]. apply plus_blank_led. reflexivity.
Qed.

Lemma K_bare_allspace p t :
  matchk K_bare accept p t = true -> Str.allspace t = true.
Proof.
  unfold K_bare. cbn [matchk].
  intros (ws & t' & p' & -> & Hws & H)%star_space_inv.
  apply andb_true_iff in H as [H _]. apply at_eol_allspace in H.
  rewrite allspace_app, Hws, H. reflexivity.
Qed.

Lemma K_bare_led p t : matchk K_bare accept p t = true -> blank_led t = true.
Proof.
  intros H%K_bare_allspace. destruct t as [|c t]; simpl in *; [reflexivity|].
  apply andb_true_iff in H as [H _]. exact H.
Qed.

Lemma star_dot_all p t :
  has_char Char.newline t = false ->
  star_k Dot (matchk Eol accept) p t = true.
Proof.
  revert p. induction t as [|c t IH]; intros p H; [reflexivity|].
  rewrite has_char_cons in H. apply orb_false_iff in H as [Hc Ht].
  cbn [star_k]. rewrite (IH _ Ht), andb_true_r. simpl in_class.
  rewrite Ascii.eqb_sym, Hc. apply orb_true_r.
Qed.

(** After the first word of a trimmed text without newline. *)
Lemma K_args_after t :
  blank_led t = true -> has_char Char.newline t = false ->
  matchk K_args accept None t = negb (Str.is_empty t).
Proof.
  intros Hled Hnl. unfold K_args. cbn [matchk].
  destruct t as [|c t]; [reflexivity|]. simpl in Hled.
  rewrite has_char_cons in Hnl. apply orb_false_iff in Hnl as [_ Hnl].
  unfold plus_k, one_k. simpl in_class. rewrite Hled. simpl.
  apply star_k_skip. apply (star_dot_all _ _ Hnl).
Qed.

Lemma K_opt_after t :
  blank_led t = true -> has_char Char.newline t = false ->
  matchk K_opt accept None t = true.
Proof.
  intros Hled Hnl. unfold K_opt. cbn [matchk].
  destruct t as [|c t]; [reflexivity|].
  pose proof (K_args_after (String c t) Hled Hnl) as H.
  unfold K_args in H. cbn [matchk] in H. rewrite H. reflexivity.
Qed.

Lemma rstrip_length s : String.length (Str.rstrip s) <= String.length s.
Proof.
  induction s as [|c s IH]; simpl; [lia|].
  destruct (Char.isspace c && Str.is_empty (Str.rstrip s)); simpl; lia.
Qed.

Lemma length_app (a b : string) :
  String.length (a ++ b) = String.length a + String.length b.
Proof. induction a as [|c a IH]; simpl; [reflexivity|]. rewrite IH. reflexivity. Qed.

Lemma rstrip_fixed_after s :
  Str.rstrip s = s -> Str.allspace (after_first_word s) = true ->
  after_first_word s = "".
Proof.
  intros Hs Hall. rewrite (first_word_split s) in Hs at 1.
  rewrite rstrip_app in Hs by exact Hall.
  pose proof (rstrip_length (first_word s)) as Hlen. rewrite Hs in Hlen.
  rewrite (first_word_split s), length_app in Hlen at 1.
  destruct (after_first_word s); [reflexivity|simpl in Hlen; lia].
Qed.

Lemma K_bare_after s :
  Str.rstrip s = s ->
  matchk K_bare accept None (after_first_word s)
  = Str.is_empty (after_first_word s).
Proof.
  intros Hs. destruct (matchk K_bare accept None (after_first_word s)) eqn:H.
  - apply K_bare_allspace in H. rewrite (rstrip_fixed_after s Hs H).
    reflexivity.
  - destruct (after_first_word s); [discriminate H|reflexivity].
Qed.

End FirstWord.

Section ByFirstWord.

Variable s : string.
Hypothesis Hl : Str.lstrip s = s.
Hypothesis Hr : Str.rstrip s = s.
Hypothesis Hnl : has_char Char.newline s = false.

Lemma after_no_newline : has_char Char.newline (after_first_word s) = false.
Proof.
  pose proof Hnl as H. rewrite (first_word_split s), has_char_app in H.
  apply orb_false_iff in H as [_ H]. exact H.
Qed.

Lemma search_optargs v :
  noblank v = true ->
  search (Seq Bol (Seq (Star Space) (Seq (Lit v) K_opt))) s
  = String.eqb (first_word s) v.
Proof.
  intros Hv. rewrite search_verb;
    [|exact Hv|exact Hl|reflexivity|exact K_opt_led].
  rewrite K_opt_after;
    [apply andb_true_r|apply after_first_word_blank_led|apply after_no_newline].
Qed.

Lemma search_optargs2 v1 v2 :
  noblank v1 = true -> noblank v2 = true ->
  search (Seq Bol (Seq (Star Space) (Seq (Alt (Lit v1) (Lit v2)) K_opt))) s
  = String.eqb (first_word s) v1 || String.eqb (first_word s) v2.
Proof.
  intros Hv1 Hv2. rewrite search_verb2;
    [|exact Hv1|exact Hv2|exact Hl|reflexivity|exact K_opt_led].
  rewrite K_opt_after;
    [apply andb_true_r|apply after_first_word_blank_led|apply after_no_newline].
Qed.

Lemma search_args v :
  noblank v = true ->
  search (Seq Bol (Seq (Star Space) (Seq (Lit v) K_args))) s
  = String.eqb (first_word s) v
    && negb (Str.is_empty (after_first_word s)).
Proof.
  intros Hv. rewrite search_verb;
    [|exact Hv|exact Hl|reflexivity|exact K_args_led].
  rewrite K_args_after;
    [reflexivity|apply after_first_word_blank_led|apply after_no_newline].
Qed.

Lemma search_args2 v1 v2 :
  noblank v1 = true -> noblank v2 = true ->
  search (Seq Bol (Seq (Star Space) (Seq (Alt (Lit v1) (Lit v2)) K_args))) s
  = (String.eqb (first_word s) v1 || String.eqb (first_word s) v2)
    && negb (Str.is_empty (after_first_word s)).
Proof.
  intros Hv1 Hv2. rewrite search_verb2;
    [|exact Hv1|exact Hv2|exact Hl|reflexivity|exact K_args_led].
  rewrite K_args_after;
    [reflexivity|apply after_first_word_blank_led|apply after_no_newline].
Qed.

Lemma search_bare v :
  noblank v = true ->
  search (Seq Bol (Seq (Star Space) (Seq (Lit v) K_bare))) s
  = String.eqb (first_word s) v && Str.is_empty (after_first_word s).
Proof.
  intros Hv. rewrite search_verb;
    [|exact Hv|exact Hl|reflexivity|exact K_bare_led].
  rewrite (K_bare_after s Hr). reflexivity.
Qed.

Lemma search_bare2 v1 v2 :
  noblank v1 = true -> noblank v2 = true ->
  search (Seq Bol (Seq (Star Space) (Seq (Alt (Lit v1) (Lit v2)) K_bare))) s
  = (String.eqb (first_word s) v1 || String.eqb (first_word s) v2)
    && Str.is_empty (after_first_word s).
Proof.
  intros Hv1 Hv2. rewrite search_verb2;
    [|exact Hv1|exact Hv2|exact Hl|reflexivity|exact K_bare_led].
  rewrite (K_bare_after s Hr). reflexivity.
Qed.

Lemma search_echo :
  search (Seq Bol (Seq (Star Space) (Seq (Lit "echo") K_echo))) s
  = String.eqb (first_word s) "echo"
    && matchk K_echo accept None (after_first_word s).
Proof.
  apply search_verb; [reflexivity|exact Hl|reflexivity|].
  intros p t. unfold K_echo. cbn [matchk]. apply plus_blank_led. reflexivity.
Qed.

End ByFirstWord.

Section ReadOff.

Ltac read_patterns :=
  repeat match goal with
         | |- context [parse ?x] =>
             let v := eval vm_compute in (parse x) in
             change (parse x) with v
         end.

Lemma chain_by_first_word s :
  Str.lstrip s = s -> Str.rstrip s = s ->
  has_char Char.newline s = false ->
  first_match_wins rule_table s = by_first_word s.
Proof.
  intros Hl Hr Hnl.
  unfold by_first_word, rule_table.
  cbn [first_match_wins]. unfold matches.
  cbn [pattern result emitted first_secondary].
  unfold re_search. read_patterns. cbv beta iota.
  change (Seq (Opt (Seq (Plus Space) (Star Dot))) Eol) with K_opt.
  change (Seq (Plus Space) (Seq (Star Dot) Eol)) with K_args.
  change (Seq (Star Space) Eol) with K_bare.
  change (Seq (Plus Space)
            (Seq (Star Dot)
               (Seq (Lit ">")
                  (Seq (Star Space)
                     (Seq (Lit ".zsh_history") K_bare))))) with K_echo.
  rewrite !(search_optargs s Hl Hnl), !(search_optargs2 s Hl Hnl),
    !(search_args s Hl Hnl), !(search_args2 s Hl Hnl),
    !(search_bare s Hl Hr), !(search_bare2 s Hl Hr),
    !(search_echo s Hl) by reflexivity.
  unfold lookup_verb, verb_table. cbn [List.find fst].
  generalize (search (Seq WordB (Seq (Lit "passwd") WordB)) s).
  generalize (search (Seq WordB (Seq (Lit "sudoers") WordB)) s).
  generalize (matchk K_echo accept None (after_first_word s)).
  generalize (Str.is_empty (after_first_word s)).
  generalize (first_word s). clear. intros w alone e q p.
  repeat match goal with
         | |- context [String.eqb w ?v] =>
             destruct (String.eqb_spec w v) as [->|?];
             [cbn; destruct alone, e, p, q; reflexivity|]
         end.
  cbn. reflexivity.
Qed.

End ReadOff.

(** X17.  For a command without newline, and every command of a log is
    one, the classification is read off the first word of the trimmed
    command: the ids of its verb when the verb is used as its rule
    asks, alone, with arguments, or either; [cat] with arguments then
    looks for its two words and [echo] for the redirection to the
    history file; anything else is the sentinel. *)
Theorem X17_first_word_decides (command : string) :
  has_char Char.newline command = false ->
  classify command = by_first_word (Str.strip command).
Proof.
  intros Hnl. rewrite classify_table. apply chain_by_first_word.
  - unfold Str.strip. destruct (lstrip_nonblank command) as [E|E].
    + rewrite E. reflexivity.
    + apply lstrip_rstrip_nonblank, E.
  - apply rstrip_rstrip.
  - apply has_char_strip, Hnl.
Qed.

Lemma X17_first_word_decides_witness :
  classify "  grep -r password /etc " = by_first_word "grep -r password /etc"
  /\ by_first_word "grep -r password /etc" = ["T1083"]
  /\ by_first_word "grep" = ["Unknown"].
Proof.
  split; [|split; vm_compute; reflexivity].
  exact (X17_first_word_decides "  grep -r password /etc " eq_refl).
Defined.

(** * From the log to the reports *)

Section EndToEnd.

Lemma complete_norm d : complete (norm d) = complete d.
Proof. unfold norm. destruct (falsy (solutions d)); reflexivity. Qed.

Lemma advances_complete st u :
  advances st u ->
  Forall (fun d => complete d = true) st ->
  Forall (fun d => complete d = true) u.
Proof.
  induction 1 as [|a b st u Hab _ IH]; intros H; [constructor|].
  apply Forall_cons in H as [Ha H]. constructor; [|apply IH, H].
  destruct Hab as [->| ->]; [exact Ha|]. rewrite complete_norm. exact Ha.
Qed.

Lemma chosen_complete st u technique r d :
  chosen st technique r ->
  Forall (fun d => complete d = true) u ->
  deref u r = Some d -> complete d = true.
Proof.
  unfold chosen.
  destruct (first_match technique st) as [e|[[i it]|]]; [intros []| |];
    intros -> Hu Hd; simpl in Hd.
  - rewrite Forall_forall in Hu. apply Hu. eapply list_elem_of_lookup_2, Hd.
  - injection Hd as <-. reflexivity.
Qed.

Lemma deref_all_complete st u techniques rs ds :
  Forall2 (chosen st) techniques rs ->
  Forall (fun d => complete d = true) u ->
  deref_all u rs = Some ds ->
  Forall (fun d => complete d = true) ds.
Proof.
  intros H Hu. revert ds. induction H as [|t r ts rs Hr _ IH]; intros ds Hds;
    simpl in Hds.
  - injection Hds as <-. constructor.
  - destruct (deref u r) as [d|] eqn:Hd; [|discriminate].
    destruct (deref_all u rs) as [ds'|]; [|discriminate].
    injection Hds as <-. constructor; [|apply IH; reflexivity].
    eapply chosen_complete; eauto.
Qed.

Lemma show_all_complete u cs res v :
  Forall2 entry_of cs res ->
  Forall (fun d => complete d = true) u ->
  show_all u res = Some v ->
  Forall (fun r => Forall (fun d => complete d = true) (snd r)) v.
Proof.
  intros H Hu. revert v.
  induction H as [|c e cs res [_ (st & st' & Hm)] _ IH]; intros v Hv;
    simpl in Hv.
  - injection Hv as <-. constructor.
  - destruct (deref_all u (techniques e)) as [ds|] eqn:Hds; [|discriminate].
    destruct (show_all u res) as [v'|]; [|discriminate].
    injection Hv as <-. constructor; [|apply IH; reflexivity]. simpl.
    eapply deref_all_complete; [|exact Hu|exact Hds].
    eapply resolve_all_chosen, Hm.
Qed.

End EndToEnd.

(** X18.  On a dataset where every record can be read by the scan and
    has a name and a description, the analysis returns, its results can
    be shown and the console report is produced.  Building the story
    then never fails for a missing key: the story is produced, with all
    its paragraphs, when the library accepts the text of each of them,
    and otherwise the exception is the one of the library, for a text
    it does not accept. *)
Theorem X18_log_to_reports (accepts : style -> string -> bool)
  (text : string)
  (objects : store) :
  Forall well_formed objects ->
  Forall (fun d => complete d = true) objects ->
  exists res objects' v out,
    analyze_bash_history text objects = inr (res, objects')
    /\ show_all objects' res = Some v
    /\ print_results v = (out, inr tt)
    /\ (accepted accepts (full_story v) ->
        generate_pdf_report accepts v = inr (full_story v))
    /\ (forall e,
          generate_pdf_report accepts v = inl e ->
          exists sty t, e = ValueError t /\ accepts sty t = false).
Proof.
  intros Hwf Hc.
  destruct (analyze_returns text objects Hwf) as (res & objects' & H).
  pose proof (analyze_entries _ _ _ _ H) as Hent.
  pose proof (proj1 (stable_analyze _ _ _ _ H)) as Hadv.
  pose proof (advances_complete _ _ Hadv Hc) as Hc'.
  destruct (show_all_settled _ _ (analyze_settled _ _ _ _ H))
    as (v & Hv & _ & _).
  pose proof (show_all_complete _ _ _ _ Hent Hc' Hv) as Hall.
  destruct (print_results v) as [out r] eqn:Hp.
  assert (r = inr tt) as ->.
  { change r with (snd (out, r)). rewrite <- Hp.
    apply print_results_succeeds, Hall. }
  exists res, objects', v, out. repeat split; auto.
  - intros Ha. apply generate_pdf_report_story. auto.
  - intros e. apply generate_pdf_report_error, Hall.
Qed.

Lemma X18_log_to_reports_witness :
  exists res objects' v out,
    analyze_bash_history "cd /tmp; whoami" (firstn 2 sample_data)
    = inr (res, objects')
    /\ show_all objects' res = Some v
    /\ print_results v = (out, inr tt)
    /\ (accepted (fun _ t => negb (has_char "<" t)) (full_story v) ->
        generate_pdf_report (fun _ t => negb (has_char "<" t)) v
        = inr (full_story v)).
Proof.
  destruct (X18_log_to_reports (fun _ t => negb (has_char "<" t))
              "cd /tmp; whoami" (firstn 2 sample_data))
    as (res & objects' & v & out & H1 & H2 & H3 & H4 & _).
  - repeat constructor; discriminate.
  - repeat constructor.
  - exists res, objects', v, out. auto.
Defined.
